(** * FusionBloomFilter: the toy Bloom filter and its 16x16 grid mapping

    A shallow embedding of the Bloom-filter utilities of [Bitmap.py] and
    [BloomFilter.py] (the functions under the "Bloom filter utils" banner of
    each script), together with the two library primitives they call:
    [str.encode('utf-8')] and [hashlib.sha256(...).digest()].

    Python values are modelled as follows.
    - [int] is [Z]; [&], [<<], [>>] and [+] are [Z.land], [Z.shiftl],
      [Z.shiftr] and [Z.add] (Python's bit operations on negative numbers are
      the two's-complement ones of [Z]).
    - [str] is the list of its code points; [bytes] is a list of integers in
      [0,255].
    - a [set] of ints is an object on a heap; a variable holding a set holds
      its address, so two names for one set see each other's [add].
    - a call either returns or raises; the heap it leaves behind is kept in
      both cases. *)

From Stdlib Require Import ZArith Lia String Ascii.
From stdpp Require Import base numbers list gmap sets.

Local Open Scope Z_scope.

Set Warnings "-clear-no-such-hyp".

(** ** Outcomes of a call *)

Inductive exn : Set :=
| UnicodeEncodeError   (* str.encode: a code point with no UTF-8 form *)
| IndexError           (* bytes[i] with i out of range *)
| AttributeError       (* .add on something that is not a set *)
| TypeError.           (* & or == on something that is not a set *)

Inductive result (A : Type) : Type :=
| Ok (a : A)
| Raise (e : exn).
Arguments Ok {A} a.
Arguments Raise {A} e.

Definition is_ok {A} (r : result A) : bool :=
  match r with Ok _ => true | Raise _ => false end.

#[global] Instance result_fmap : FMap result := fun A B f r =>
  match r with Ok a => Ok (f a) | Raise e => Raise e end.

Definition raises {A} (r : result A) : Prop := exists e, r = Raise e.

(** ** Python strings and their UTF-8 encoding *)

(** A [str] is a sequence of code points. *)
Abbreviation str := (list Z).

(** A string literal of printable ASCII characters, as a [str]. *)
Definition lit (s : string) : str :=
  map (fun c => Z.of_nat (nat_of_ascii c)) (list_ascii_of_string s).

(** UTF-8 form of one code point.  Surrogates (U+D800..U+DFFF) have none and
    make [encode] raise.  Numbers outside [0, 0x10FFFF] are not code points of
    any [str]; the encoder rejects them as well. *)
Definition encode_code_point (c : Z) : result (list Z) :=
  if c <? 0 then Raise UnicodeEncodeError
  else if c <? 0x80 then Ok [c]
  else if c <? 0x800 then
    Ok [Z.lor 0xC0 (Z.shiftr c 6); Z.lor 0x80 (Z.land c 0x3F)]
  else if (0xD800 <=? c) && (c <=? 0xDFFF) then Raise UnicodeEncodeError
  else if c <? 0x10000 then
    Ok [Z.lor 0xE0 (Z.shiftr c 12);
        Z.lor 0x80 (Z.land (Z.shiftr c 6) 0x3F);
        Z.lor 0x80 (Z.land c 0x3F)]
  else if c <? 0x110000 then
    Ok [Z.lor 0xF0 (Z.shiftr c 18);
        Z.lor 0x80 (Z.land (Z.shiftr c 12) 0x3F);
        Z.lor 0x80 (Z.land (Z.shiftr c 6) 0x3F);
        Z.lor 0x80 (Z.land c 0x3F)]
  else Raise UnicodeEncodeError.

(** [s.encode('utf-8')] *)
Fixpoint encode_utf8 (s : str) : result (list Z) :=
  match s with
  | [] => Ok []
  | c :: s' =>
      match encode_code_point c with
      | Raise e => Raise e
      | Ok bs =>
          match encode_utf8 s' with
          | Raise e => Raise e
          | Ok bs' => Ok (bs ++ bs')
          end
      end
  end.

Definition encodable (s : str) : Prop := is_ok (encode_utf8 s) = true.

(** ** SHA-256 (FIPS 180-4), the digest behind [hashlib.sha256] *)

Module SHA256.

Definition add32 (x y : Z) : Z := (x + y) mod 2 ^ 32.
Definition not32 (x : Z) : Z := Z.lxor x 0xFFFFFFFF.
Definition rotr (n x : Z) : Z :=
  Z.lor (Z.shiftr x n) (Z.shiftl x (32 - n) mod 2 ^ 32).

Definition Ch (x y z : Z) : Z := Z.lxor (Z.land x y) (Z.land (not32 x) z).
Definition Maj (x y z : Z) : Z :=
  Z.lxor (Z.lxor (Z.land x y) (Z.land x z)) (Z.land y z).
Definition Sigma0 (x : Z) : Z :=
  Z.lxor (Z.lxor (rotr 2 x) (rotr 13 x)) (rotr 22 x).
Definition Sigma1 (x : Z) : Z :=
  Z.lxor (Z.lxor (rotr 6 x) (rotr 11 x)) (rotr 25 x).
Definition sigma0 (x : Z) : Z :=
  Z.lxor (Z.lxor (rotr 7 x) (rotr 18 x)) (Z.shiftr x 3).
Definition sigma1 (x : Z) : Z :=
  Z.lxor (Z.lxor (rotr 17 x) (rotr 19 x)) (Z.shiftr x 10).

(** The constants of the standard are fractional parts of roots of the first
primes: 32 bits of the cube roots of the first 64 for the round constants, of
the square roots of the first 8 for the initial hash value. *)
Definition is_prime (p : Z) : bool :=
  forallb (fun d => negb (p mod d =? 0)) (seqZ 2 (p - 2)).

Definition primes (n : nat) : list Z := take n (filter is_prime (seqZ 2 400)).

(** Largest [r] below [2 ^ bits] with [r ^ e <= n], found bit by bit. *)
Fixpoint iroot (e : Z) (bits : nat) (n r : Z) : Z :=
  match bits with
  | O => r
  | S b =>
      let c := Z.lor r (Z.shiftl 1 (Z.of_nat b)) in
      iroot e b n (if c ^ e <=? n then c else r)
  end.

Definition root_fraction (e p : Z) : Z :=
  iroot e 40 (Z.shiftl p (32 * e)) 0 mod 2 ^ 32.

Definition K : list Z := Eval vm_compute in map (root_fraction 3) (primes 64).

(** The eight working variables, and the eight words of the hash value. *)
Record regs : Set := Regs { ra : Z; rb : Z; rc : Z; rd : Z;
                            re : Z; rf : Z; rg : Z; rh : Z }.

Definition H0 : regs :=
  Eval vm_compute in
    match map (root_fraction 2) (primes 8) with
    | [a; b; c; d; e; f; g; h] => Regs a b c d e f g h
    | _ => Regs 0 0 0 0 0 0 0 0
    end.

(** The [n] low bytes of [x], most significant first. *)
Fixpoint be_bytes (n : nat) (x : Z) : list Z :=
  match n with
  | O => []
  | S n' => Z.shiftr x (8 * Z.of_nat n') mod 256 :: be_bytes n' x
  end.

(** Big-endian value of a byte string. *)
Definition be_word (bs : list Z) : Z :=
  fold_left (fun acc b => Z.lor (Z.shiftl acc 8) b) bs 0.

(** Padding: a 1 bit, zero bits up to 448 mod 512, the bit length on 64 bits. *)
Definition pad (msg : list Z) : list Z :=
  let len := Z.of_nat (length msg) in
  msg ++ [0x80] ++ replicate (Z.to_nat ((55 - len) mod 64)) 0
      ++ be_bytes 8 (8 * len).

(** [n] consecutive chunks of [k] elements. *)
Fixpoint chunks {A} (k n : nat) (l : list A) : list (list A) :=
  match n with
  | O => []
  | S n' => take k l :: chunks k n' (drop k l)
  end.

(** Message schedule, kept newest word first while it grows. *)
Fixpoint extend (n : nat) (rw : list Z) : list Z :=
  match n with
  | O => rw
  | S n' =>
      let w := add32 (add32 (sigma1 (nth 1 rw 0)) (nth 6 rw 0))
                     (add32 (sigma0 (nth 14 rw 0)) (nth 15 rw 0)) in
      extend n' (w :: rw)
  end.

Definition schedule (block : list Z) : list Z :=
  rev (extend 48 (rev (map be_word (chunks 4 16 block)))).

Definition round (r : regs) (kw : Z * Z) : regs :=
  let t1 := add32 (add32 (add32 (rh r) (Sigma1 (re r)))
                         (add32 (Ch (re r) (rf r) (rg r)) (fst kw)))
                  (snd kw) in
  let t2 := add32 (Sigma0 (ra r)) (Maj (ra r) (rb r) (rc r)) in
  Regs (add32 t1 t2) (ra r) (rb r) (rc r) (add32 (rd r) t1) (re r) (rf r) (rg r).

Definition compress (hv : regs) (block : list Z) : regs :=
  let r := fold_left round (zip K (schedule block)) hv in
  Regs (add32 (ra hv) (ra r)) (add32 (rb hv) (rb r))
       (add32 (rc hv) (rc r)) (add32 (rd hv) (rd r))
       (add32 (re hv) (re r)) (add32 (rf hv) (rf r))
       (add32 (rg hv) (rg r)) (add32 (rh hv) (rh r)).

Definition regs_bytes (r : regs) : list Z :=
  be_bytes 4 (ra r) ++ be_bytes 4 (rb r) ++ be_bytes 4 (rc r)
    ++ be_bytes 4 (rd r) ++ be_bytes 4 (re r) ++ be_bytes 4 (rf r)
    ++ be_bytes 4 (rg r) ++ be_bytes 4 (rh r).

(** [hashlib.sha256(msg).digest()] *)
Definition digest (msg : list Z) : list Z :=
  let p := pad msg in
  regs_bytes (fold_left compress (chunks 64 (length p / 64)%nat p) H0).

End SHA256.

(** ** The heap of set objects, and calls that run on it *)

(** Address of a set object: its rank in allocation order. *)
Abbreviation loc := nat.

Abbreviation heap := (list (gset Z)).

(** A call takes the heap and leaves a result or an exception, and a heap. *)
Definition py (A : Type) : Type := heap -> result A * heap.

Definition ret {A} (a : A) : py A := fun h => (Ok a, h).

Definition bind {A B} (m : py A) (k : A -> py B) : py B :=
  fun h => match m h with
           | (Ok a, h') => k a h'
           | (Raise e, h') => (Raise e, h')
           end.

Notation "x <- m ;; k" := (bind m (fun x => k))
  (at level 100, m at next level, right associativity).
Notation "m ;;; k" := (bind m (fun _ => k))
  (at level 100, right associativity).

Definition lift {A} (r : result A) : py A := fun h => (r, h).

(** [set()] *)
Definition new_set : py loc := fun h => (Ok (length h), h ++ [∅]).

(** Looking up a set method such as [.add] on the object at [l]. *)
Definition set_method (l : loc) : py unit :=
  fun h => match h !! l with
           | Some _ => (Ok tt, h)
           | None => (Raise AttributeError, h)
           end.

(** [bloom.add(x)], on the object itself. *)
Definition set_add (l : loc) (x : Z) : py unit :=
  fun h => match h !! l with
           | Some s => (Ok tt, <[l := {[x]} ∪ s]> h)
           | None => (Raise AttributeError, h)
           end.

(** [a & b]: a new set object. *)
Definition set_and (a b : loc) : py loc :=
  fun h => match h !! a, h !! b with
           | Some sa, Some sb => (Ok (length h), h ++ [sa ∩ sb])
           | _, _ => (Raise TypeError, h)
           end.

(** [a == b] on two sets: equality of contents. *)
Definition set_eq (a b : loc) : py bool :=
  fun h => match h !! a, h !! b with
           | Some sa, Some sb => (Ok (bool_decide (sa = sb)), h)
           | _, _ => (Raise TypeError, h)
           end.

(** [for x in xs: body(x)] *)
Fixpoint for_each {A} (xs : list A) (body : A -> py unit) : py unit :=
  match xs with
  | [] => ret tt
  | x :: xs' => body x ;;; for_each xs' body
  end.

(** [range(n)]: empty when [n <= 0]. *)
Definition range (n : Z) : list Z := seqZ 0 n.

(** [bs[i]] on a [bytes] object: negative indices count from the end. *)
Definition getitem (bs : list Z) (i : Z) : result Z :=
  let n := Z.of_nat (length bs) in
  let j := if i <? 0 then i + n else i in
  if (0 <=? j) && (j <? n) then
    match bs !! Z.to_nat j with
    | Some b => Ok b
    | None => Raise IndexError
    end
  else Raise IndexError.

(** What a function hands back when it returns the builtin [set] type
    itself rather than an object. *)
Inductive builtin : Set := set_class.

(** [x in bloom] on a set object. *)
Definition set_contains (x : Z) (l : loc) : py bool :=
  fun h => match h !! l with
           | Some s => (Ok (bool_decide (x ∈ s)), h)
           | None => (Raise TypeError, h)
           end.

(** A loop whose turns make calls on the drawing host: the calls made, in
    order. *)
Fixpoint for_calls {A E} (xs : list A) (body : A -> py (list E)) : py (list E) :=
  match xs with
  | [] => ret []
  | x :: xs' =>
      calls <- body x ;;
      calls' <- for_calls xs' body ;;
      ret (calls ++ calls')
  end.

(** [c.isspace()], the characters that [str.strip()] removes. *)
Definition isspace (c : Z) : bool :=
  ((0x9 <=? c) && (c <=? 0xD)) || ((0x1C <=? c) && (c <=? 0x20))
  || (c =? 0x85) || (c =? 0xA0) || (c =? 0x1680)
  || ((0x2000 <=? c) && (c <=? 0x200A))
  || (c =? 0x2028) || (c =? 0x2029) || (c =? 0x202F) || (c =? 0x205F)
  || (c =? 0x3000).

Fixpoint lstrip (s : str) : str :=
  match s with
  | [] => []
  | c :: s' => if isspace c then lstrip s' else s
  end.

Definition rstrip (s : str) : str := reverse (lstrip (reverse s)).

(** [s.strip()] *)
Definition strip (s : str) : str := rstrip (lstrip s).

(** [s.split(sep)] for a one-character separator: never an empty list. *)
Fixpoint split (sep : Z) (s : str) : list str :=
  match s with
  | [] => [[]]
  | c :: s' =>
      if c =? sep then [] :: split sep s'
      else match split sep s' with
           | piece :: pieces => (c :: piece) :: pieces
           | [] => [[c]]
           end
  end.

(** The code point of ['\n']. *)
Definition newline : Z := 10.

(** ** Bitmap.py *)

Module Bitmap.

(** The module's state once its [def] statements have run: the one set
    object that [bloom = set()] in the signature of
    [add_to_32_bit_bloom_filter] was evaluated to. *)
Record globals : Set := { default_bloom : loc }.

Definition module_init : py globals :=
  d <- new_set ;; ret {| default_bloom := d |}.

Definition default_num_hashes : Z := 8.

Definition add_to_32_bit_bloom_filter (g : globals) (string_to_add : str)
    (num_hashes : option Z) (bloom : option loc) : py builtin :=
  let num_hashes := default default_num_hashes num_hashes in
  let bloom := default (default_bloom g) bloom in
  encoded_string <- lift (encode_utf8 string_to_add) ;;
  let sha256_hash := SHA256.digest encoded_string in
  for_each (range num_hashes) (fun i =>
    set_method bloom ;;;
    b <- lift (getitem sha256_hash i) ;;
    set_add bloom b) ;;;
  ret set_class.

Definition create_bloom_filter (g : globals) (entries : list str)
    (num_hashes : option Z) : py loc :=
  let num_hashes := default default_num_hashes num_hashes in
  bloom <- new_set ;;
  for_each entries (fun item =>
    add_to_32_bit_bloom_filter g item (Some num_hashes) (Some bloom) ;;;
    ret tt) ;;;
  ret bloom.

Definition item_in_bloom (g : globals) (item : str) (bloom : loc)
    (num_hashes : Z) : py bool :=
  item_hash <- create_bloom_filter g [item] (Some num_hashes) ;;
  both <- set_and item_hash bloom ;;
  set_eq both item_hash.

Definition coordinates_from_byte (b : Z) : Z * Z :=
  let x := Z.shiftr (Z.land b 0xF0) 4 in
  let y := Z.land b 0x0F in
  (x, y).

Definition byte_for_coordinate (x y : Z) : Z :=
  Z.land y 0xf + Z.shiftl (Z.land x 0xf) 4.

(** The item names as [notify] takes them from the text box:
    [[s.strip() for s in paragraph.split('\n')]]. *)
Definition notify_items (paragraph : str) : list str :=
  map strip (split newline paragraph).

(** The pixel loop of [draw_bloom_grid].  [rect grid_x grid_y] stands for the
    call [lines.addTwoPointRectangle(p1, p2)] of the loop body, whose corner
    points are floating-point functions of the cell; the result lists the
    calls made.  The outline and the extrusion that follow are host calls
    outside this model. *)
Definition draw_bloom_grid {E} (rect : Z -> Z -> E) (bloom : loc) : py (list E) :=
  for_calls (range 16) (fun grid_x =>
    for_calls (range 16) (fun grid_y =>
      let byte := byte_for_coordinate grid_x grid_y in
      lit <- set_contains byte bloom ;;
      if lit then ret [rect grid_x grid_y] else ret [])).

(** The pixel loop of [draw_hash_sketches], with the sparse hash it builds
    first. *)
Definition draw_hash_sketches {E} (g : globals) (rect : Z -> Z -> E)
    (item : str) (num_hashes : Z) : py (list E) :=
  item_hash <- create_bloom_filter g [item] (Some num_hashes) ;;
  for_calls (range 16) (fun grid_x =>
    for_calls (range 16) (fun grid_y =>
      let byte := byte_for_coordinate grid_x grid_y in
      lit <- set_contains byte item_hash ;;
      if lit then ret [rect grid_x grid_y] else ret [])).

End Bitmap.

(** ** BloomFilter.py *)

Module BloomFilter.

(** The module-level variable the functions read through [global]. *)
Record globals : Set := { num_hashes : Z }.

Definition module_init : globals := {| num_hashes := 10 |}.

Definition add_to_bloom_filter (g : globals) (string_to_add : str)
    (bloom : loc) : py unit :=
  encoded_string <- lift (encode_utf8 string_to_add) ;;
  let sha256_hash := SHA256.digest encoded_string in
  for_each (range (num_hashes g)) (fun i =>
    set_method bloom ;;;
    b <- lift (getitem sha256_hash i) ;;
    set_add bloom b).

Definition create_bloom_filter (g : globals) (entries : list str) : py loc :=
  bloom <- new_set ;;
  for_each entries (fun item => add_to_bloom_filter g item bloom) ;;;
  ret bloom.

Definition item_in_bloom (g : globals) (item : str) (bloom : loc) : py bool :=
  item_hash <- create_bloom_filter g [item] ;;
  both <- set_and item_hash bloom ;;
  set_eq both item_hash.

Definition coordinates_from_byte (b : Z) : Z * Z :=
  let x := Z.shiftr (Z.land b 0xF0) 4 in
  let y := Z.land b 0x0F in
  (x, y).

Definition byte_for_coordinate (x y : Z) : Z :=
  Z.land y 0xf + Z.shiftl (Z.land x 0xf) 4.

(** The item names as [notify] takes them from the text box:
    [[s.strip() for s in items_str.split('\n')]]. *)
Definition notify_items (items_str : str) : list str :=
  map strip (split newline items_str).

(** The pixel loop of [draw_bloom_grid]; [rect grid_x grid_y] stands for the
    call [lines.addTwoPointRectangle(p1, p2)] of the loop body. *)
Definition draw_bloom_grid {E} (rect : Z -> Z -> E) (bloom : loc) : py (list E) :=
  for_calls (range 16) (fun grid_x =>
    for_calls (range 16) (fun grid_y =>
      let byte := byte_for_coordinate grid_x grid_y in
      lit <- set_contains byte bloom ;;
      if lit then ret [rect grid_x grid_y] else ret [])).

(** The pixel loop of [draw_hash_sketches], with the sparse hash it builds
    first. *)
Definition draw_hash_sketches {E} (g : globals) (rect : Z -> Z -> E)
    (item : str) : py (list E) :=
  item_hash <- create_bloom_filter g [item] ;;
  for_calls (range 16) (fun grid_x =>
    for_calls (range 16) (fun grid_y =>
      let byte := byte_for_coordinate grid_x grid_y in
      lit <- set_contains byte item_hash ;;
      if lit then ret [rect grid_x grid_y] else ret [])).

End BloomFilter.

(** ** The specification's vocabulary *)

(** The set of the first [n] bytes of the digest of an encoded string. *)
Definition leading (n : Z) (bs : list Z) : gset Z :=
  list_to_set (take (Z.to_nat n) (SHA256.digest bs)).

Module Spec.

Inductive error : Set := EncodingError | InvalidArgument.

(** [sparse_hash(input, num_hashes)], for [num_hashes] in [1,32]: the first
    [num_hashes] bytes of [digest(input)], as a set. *)
Definition sparse_hash (input : str) (num_hashes : Z) : error + gset Z :=
  if (1 <=? num_hashes) && (num_hashes <=? 32) then
    match encode_utf8 input with
    | Ok bs => inr (leading num_hashes bs)
    | Raise _ => inl EncodingError
    end
  else inl InvalidArgument.

End Spec.

(** What one string adds to a filter when its insertion succeeds. *)
Definition contribution (n : Z) (item : str) : gset Z :=
  match encode_utf8 item with
  | Ok bs => leading n bs
  | Raise _ => ∅
  end.

(** ** Test vectors *)

Definition hex (bs : list Z) : Z := SHA256.be_word bs.

Example sha256_empty :
  hex (SHA256.digest []) =
  0xe3b0c44298fc1c149afbf4c8996fb92427ae41e4649b934ca495991b7852b855.
Proof. vm_compute. reflexivity. Qed.

Example sha256_abc :
  hex (SHA256.digest [97; 98; 99]) =
  0xba7816bf8f01cfea414140de5dae2223b00361a396177a9cb410ff61f20015ad.
Proof. vm_compute. reflexivity. Qed.

Example sha256_two_blocks :
  (fun bs => hex (SHA256.digest bs)) <$> encode_utf8
     (lit "abcdbcdecdefdefgefghfghighijhijkijkljklmklmnlmnomnopnopq") =
  Ok 0x248d6a61d20638b8e5c026930c3e6039a33ce45964ff2167f6ecedd419db06c1.
Proof. vm_compute. reflexivity. Qed.

Example sha256_constants :
  length SHA256.K = 64%nat /\
  take 2 SHA256.K = [0x428a2f98; 0x71374491] /\
  last SHA256.K = Some 0xc67178f2 /\
  SHA256.ra SHA256.H0 = 0x6a09e667 /\ SHA256.rh SHA256.H0 = 0x5be0cd19.
Proof. repeat split. Qed.

Example encode_ascii : encode_utf8 (lit "abc") = Ok [97; 98; 99].
Proof. vm_compute. reflexivity. Qed.

Example encode_multibyte :
  encode_utf8 [0xe9; 0x20ac; 0x1f600] =
  Ok [195; 169; 226; 130; 172; 240; 159; 152; 128].
Proof. vm_compute. reflexivity. Qed.

Example encode_surrogate : encode_utf8 [0x41; 0xd800] = Raise UnicodeEncodeError.
Proof. vm_compute. reflexivity. Qed.

Example oats_leading :
  take 10 <$> (SHA256.digest <$> encode_utf8 (lit "Oats")) =
  Ok [78; 22; 72; 242; 1; 240; 155; 112; 90; 78].
Proof. vm_compute. reflexivity. Qed.

(** ** The digest and indexing into it *)

Lemma be_bytes_length n x : length (SHA256.be_bytes n x) = n.
Proof. induction n as [|n IH]; simpl; [reflexivity | now rewrite IH]. Qed.

Lemma digest_length msg : length (SHA256.digest msg) = 32%nat.
Proof.
  unfold SHA256.digest, SHA256.regs_bytes.
  rewrite !length_app, !be_bytes_length. reflexivity.
Qed.

Lemma be_bytes_range n x : Forall (fun b => 0 <= b < 256) (SHA256.be_bytes n x).
Proof.
  induction n as [|n IH]; simpl; constructor; [|exact IH].
  apply Z.mod_pos_bound. lia.
Qed.

Lemma digest_range msg : Forall (fun b => 0 <= b < 256) (SHA256.digest msg).
Proof.
  unfold SHA256.digest, SHA256.regs_bytes.
  rewrite !Forall_app. repeat split; apply be_bytes_range.
Qed.

Lemma getitem_lookup bs i b :
  bs !! i = Some b -> getitem bs (Z.of_nat i) = Ok b.
Proof.
  intros Hb. pose proof (lookup_lt_Some _ _ _ Hb) as Hlt.
  unfold getitem.
  destruct (Z.ltb_spec (Z.of_nat i) 0) as [?|_]; [lia|].
  destruct (Z.leb_spec 0 (Z.of_nat i)) as [_|?]; [|lia].
  destruct (Z.ltb_spec (Z.of_nat i) (Z.of_nat (length bs))) as [_|?]; [|lia].
  simpl. now rewrite Nat2Z.id, Hb.
Qed.

Lemma getitem_past_end bs i :
  Z.of_nat (length bs) <= i -> getitem bs i = Raise IndexError.
Proof.
  intros Hi. unfold getitem.
  destruct (Z.ltb_spec i 0) as [?|_]; [lia|].
  destruct (Z.ltb_spec i (Z.of_nat (length bs))) as [?|_]; [lia|].
  now rewrite andb_false_r.
Qed.

(** [range(n)] read through [bs[i]] yields the first [n] bytes of [bs]. *)
Lemma range_getitem bs n :
  n <= Z.of_nat (length bs) ->
  Forall2 (fun i b => getitem bs i = Ok b) (range n) (take (Z.to_nat n) bs).
Proof.
  intros Hn. apply Forall2_same_length_lookup_2.
  - unfold range. rewrite length_seqZ, length_take. lia.
  - intros k i b Hi Hb. apply lookup_seqZ in Hi as [-> _].
    rewrite lookup_take_Some in Hb. destruct Hb as [Hb _].
    now apply getitem_lookup.
Qed.

(** ** The loop [for i in range(num_hashes): bloom.add(sha256_hash[i])] *)

(** One turn of the loop, as both scripts write it. *)
Definition add_byte (sha256_hash : list Z) (bloom : loc) (i : Z) : py unit :=
  set_method bloom ;;;
  b <- lift (getitem sha256_hash i) ;;
  set_add bloom b.

Lemma add_byte_ok d l i b (h : heap) s :
  h !! l = Some s -> getitem d i = Ok b ->
  add_byte d l i h = (Ok tt, <[l := {[b]} ∪ s]> h).
Proof.
  intros Hl Hi. unfold add_byte, bind, set_method, lift, set_add.
  now rewrite Hl, Hi, Hl.
Qed.

Lemma add_byte_raise d l i e (h : heap) s :
  h !! l = Some s -> getitem d i = Raise e ->
  add_byte d l i h = (Raise e, h).
Proof.
  intros Hl Hi. unfold add_byte, bind, set_method, lift.
  now rewrite Hl, Hi.
Qed.

Lemma add_byte_dangling d l i (h : heap) :
  h !! l = None -> add_byte d l i h = (Raise AttributeError, h).
Proof. intros Hl. unfold add_byte, bind, set_method. now rewrite Hl. Qed.

Lemma for_each_app {A} (xs ys : list A) f (h : heap) :
  for_each (xs ++ ys) f h = (for_each xs f ;;; for_each ys f) h.
Proof.
  revert h. induction xs as [|x xs IH]; intros h; simpl.
  - reflexivity.
  - unfold bind in *. destruct (f x h) as [[[]|e] h1]; [|reflexivity].
    apply IH.
Qed.

Lemma add_loop_ok d l idx bs :
  Forall2 (fun i b => getitem d i = Ok b) idx bs ->
  forall (h : heap) s, h !! l = Some s ->
  for_each idx (add_byte d l) h = (Ok tt, <[l := list_to_set bs ∪ s]> h).
Proof.
  induction 1 as [|i b idx bs Hi _ IH]; intros h s Hl; simpl.
  - unfold ret. f_equal. symmetry. apply list_insert_id.
    rewrite Hl. f_equal. set_solver.
  - unfold bind. rewrite (add_byte_ok _ _ _ _ _ _ Hl Hi).
    pose proof (lookup_lt_Some _ _ _ Hl) as Hlt.
    rewrite (IH _ ({[b]} ∪ s)) by now apply list_lookup_insert_eq.
    rewrite list_insert_insert_eq. do 2 f_equal. set_solver.
Qed.

(** The loop on a 32-byte digest, for every [num_hashes]. *)
Lemma add_loop_digest bs l n (h : heap) s :
  h !! l = Some s ->
  for_each (range n) (add_byte (SHA256.digest bs) l) h =
  if decide (n <= 32) then (Ok tt, <[l := leading n bs ∪ s]> h)
  else (Raise IndexError, <[l := leading 32 bs ∪ s]> h).
Proof.
  intros Hl. pose proof (digest_length bs) as Hlen.
  assert (Hfirst : forall k, k <= 32 ->
    for_each (range k) (add_byte (SHA256.digest bs) l) h =
    (Ok tt, <[l := leading k bs ∪ s]> h)).
  { intros k Hk. apply add_loop_ok; [|exact Hl].
    apply range_getitem. rewrite Hlen. lia. }
  destruct (decide (n <= 32)) as [Hn|Hn]; [now apply Hfirst|].
  unfold range. replace n with (32 + (n - 32)) by lia.
  rewrite seqZ_app by lia. rewrite for_each_app. unfold bind at 1.
  fold (range 32). rewrite Hfirst by lia.
  rewrite seqZ_cons by lia. simpl. unfold bind.
  pose proof (lookup_lt_Some _ _ _ Hl) as Hlt.
  erewrite add_byte_raise; [reflexivity| |].
  - now apply list_lookup_insert_eq.
  - apply getitem_past_end. rewrite Hlen. lia.
Qed.

Lemma add_loop_dangling d l n (h : heap) :
  h !! l = None ->
  for_each (range n) (add_byte d l) h =
  if decide (n <= 0) then (Ok tt, h) else (Raise AttributeError, h).
Proof.
  intros Hl. unfold range. destruct (decide (n <= 0)) as [Hn|Hn].
  - now rewrite seqZ_nil.
  - rewrite seqZ_cons by lia. simpl. unfold bind.
    now rewrite add_byte_dangling.
Qed.

(** ** One insertion *)

Lemma encodable_Ok item : encodable item <-> exists bs, encode_utf8 item = Ok bs.
Proof.
  unfold encodable. destruct (encode_utf8 item) as [bs|e]; simpl; split.
  - eauto.
  - reflexivity.
  - discriminate.
  - intros [bs Hbs]. discriminate.
Qed.

(** Everything [add_to_bloom_filter] can do, by cases on its input. *)
Lemma add_to_bloom_filter_run g item l (h : heap) :
  BloomFilter.add_to_bloom_filter g item l h =
  match encode_utf8 item, h !! l with
  | Raise e, _ => (Raise e, h)
  | Ok bs, Some s =>
      if decide (BloomFilter.num_hashes g <= 32)
      then (Ok tt, <[l := leading (BloomFilter.num_hashes g) bs ∪ s]> h)
      else (Raise IndexError, <[l := leading 32 bs ∪ s]> h)
  | Ok bs, None =>
      if decide (BloomFilter.num_hashes g <= 0) then (Ok tt, h)
      else (Raise AttributeError, h)
  end.
Proof.
  unfold BloomFilter.add_to_bloom_filter, bind, lift.
  destruct (encode_utf8 item) as [bs|e]; [|reflexivity].
  destruct (h !! l) as [s|] eqn:Hl.
  - exact (add_loop_digest bs l _ h s Hl).
  - exact (add_loop_dangling _ l _ h Hl).
Qed.

(** The two scripts insert in the same way; [Bitmap.py] then returns the
    builtin [set]. *)
Lemma add_to_32_bit_bloom_filter_run g item n bloom (h : heap) :
  Bitmap.add_to_32_bit_bloom_filter g item n bloom h =
  (BloomFilter.add_to_bloom_filter
     {| BloomFilter.num_hashes := default Bitmap.default_num_hashes n |}
     item (default (Bitmap.default_bloom g) bloom) ;;;
   ret set_class) h.
Proof.
  unfold Bitmap.add_to_32_bit_bloom_filter, BloomFilter.add_to_bloom_filter,
    bind, lift. simpl.
  destruct (encode_utf8 item) as [bs|e]; reflexivity.
Qed.

Lemma for_each_ext {A} (xs : list A) f f' :
  (forall x (h : heap), f x h = f' x h) ->
  forall h : heap, for_each xs f h = for_each xs f' h.
Proof.
  intros Hf. induction xs as [|x xs IH]; intros h; simpl; [reflexivity|].
  unfold bind. rewrite Hf. destruct (f' x h) as [[[]|e] h1]; [apply IH | reflexivity].
Qed.

Lemma create_bloom_filter_same g entries n (h : heap) :
  Bitmap.create_bloom_filter g entries n h =
  BloomFilter.create_bloom_filter
    {| BloomFilter.num_hashes := default Bitmap.default_num_hashes n |}
    entries h.
Proof.
  unfold Bitmap.create_bloom_filter, BloomFilter.create_bloom_filter, bind.
  destruct (new_set h) as [[bloom|e] h1]; [|reflexivity].
  erewrite for_each_ext; [reflexivity|].
  intros item h2. rewrite add_to_32_bit_bloom_filter_run. simpl.
  unfold bind, ret.
  destruct (BloomFilter.add_to_bloom_filter _ item bloom h2) as [[[]|e] h3];
    reflexivity.
Qed.

Lemma item_in_bloom_same g item bloom n (h : heap) :
  Bitmap.item_in_bloom g item bloom n h =
  BloomFilter.item_in_bloom {| BloomFilter.num_hashes := n |} item bloom h.
Proof.
  unfold Bitmap.item_in_bloom, BloomFilter.item_in_bloom, bind.
  now rewrite create_bloom_filter_same.
Qed.

(** ** Building a filter *)

Definition insertable (n : Z) (entries : list str) : Prop :=
  Forall encodable entries /\ (entries = [] \/ n <= 32).

Lemma insert_all_ok g entries l (h : heap) s :
  insertable (BloomFilter.num_hashes g) entries ->
  h !! l = Some s ->
  for_each entries (fun item => BloomFilter.add_to_bloom_filter g item l) h =
  (Ok tt, <[l := ⋃ (contribution (BloomFilter.num_hashes g) <$> entries) ∪ s]> h).
Proof.
  intros [Henc Hn]. revert h s.
  induction Henc as [|item entries Hitem Henc IH]; intros h s Hl; simpl.
  - unfold ret. f_equal. symmetry. apply list_insert_id.
    rewrite Hl. f_equal. set_solver.
  - destruct Hn as [|Hn]; [discriminate|].
    apply encodable_Ok in Hitem as [bs Hbs].
    unfold bind. rewrite add_to_bloom_filter_run, Hbs, Hl.
    rewrite decide_True by exact Hn.
    pose proof (lookup_lt_Some _ _ _ Hl) as Hlt.
    erewrite IH; [|now right|now apply list_lookup_insert_eq].
    rewrite list_insert_insert_eq. unfold contribution at 2. rewrite Hbs.
    do 2 f_equal. set_solver.
Qed.

Lemma insert_all_inv g entries l (h h' : heap) s :
  h !! l = Some s ->
  for_each entries (fun item => BloomFilter.add_to_bloom_filter g item l) h =
  (Ok tt, h') ->
  insertable (BloomFilter.num_hashes g) entries.
Proof.
  revert h s. induction entries as [|item entries IH]; intros h s Hl Hrun.
  - split; [constructor | now left].
  - simpl in Hrun. unfold bind in Hrun.
    rewrite add_to_bloom_filter_run, Hl in Hrun.
    destruct (encode_utf8 item) as [bs|e] eqn:Hbs; [|discriminate].
    destruct (decide (BloomFilter.num_hashes g <= 32)) as [Hn|Hn]; [|discriminate].
    pose proof (lookup_lt_Some _ _ _ Hl) as Hlt.
    pose proof (IH _ _ (list_lookup_insert_eq _ _ _ Hlt) Hrun) as [Henc _].
    split; [|now right].
    constructor; [|exact Henc]. apply encodable_Ok. eauto.
Qed.

Lemma create_bloom_filter_ok g entries (h : heap) :
  insertable (BloomFilter.num_hashes g) entries ->
  BloomFilter.create_bloom_filter g entries h =
  (Ok (length h),
   h ++ [⋃ (contribution (BloomFilter.num_hashes g) <$> entries)]).
Proof.
  intros Hins. unfold BloomFilter.create_bloom_filter, bind, new_set.
  rewrite (insert_all_ok g entries (length h) _ ∅ Hins)
    by apply list_lookup_middle, eq_refl.
  unfold ret. f_equal.
  rewrite <- (Nat.add_0_r (length h)) at 1. rewrite insert_app_r. simpl.
  do 2 f_equal. set_solver.
Qed.

Lemma create_bloom_filter_inv g entries (h h' : heap) l :
  BloomFilter.create_bloom_filter g entries h = (Ok l, h') ->
  insertable (BloomFilter.num_hashes g) entries.
Proof.
  unfold BloomFilter.create_bloom_filter, bind, new_set. intros Hrun.
  destruct (for_each entries _ _) as [[[]|e] h1] eqn:Hloop; [|discriminate].
  eapply insert_all_inv; [|exact Hloop].
  apply list_lookup_middle, eq_refl.
Qed.

(** ** The grid mapping *)

Lemma grid_same :
  BloomFilter.coordinates_from_byte = Bitmap.coordinates_from_byte /\
  BloomFilter.byte_for_coordinate = Bitmap.byte_for_coordinate.
Proof. split; reflexivity. Qed.

Lemma low_nibble b : Z.land b 0xF = b mod 16.
Proof. change 0xF with (Z.ones 4). now rewrite Z.land_ones. Qed.

Lemma high_nibble b : Z.shiftr (Z.land b 0xF0) 4 = (b / 16) mod 16.
Proof.
  rewrite Z.shiftr_land. change (Z.shiftr 0xF0 4) with (Z.ones 4).
  rewrite Z.land_ones by lia. now rewrite Z.shiftr_div_pow2.
Qed.

Lemma coordinates_from_byte_arith b :
  Bitmap.coordinates_from_byte b = ((b / 16) mod 16, b mod 16).
Proof.
  unfold Bitmap.coordinates_from_byte.
  now rewrite high_nibble, low_nibble.
Qed.

Lemma byte_for_coordinate_arith x y :
  Bitmap.byte_for_coordinate x y = 16 * (x mod 16) + y mod 16.
Proof.
  unfold Bitmap.byte_for_coordinate.
  rewrite !low_nibble, Z.shiftl_mul_pow2 by lia. lia.
Qed.

(** C1.  On bytes and on grid positions the two mappings undo each other:
    splitting a byte [b] of [0,255] gives its high nibble as [x] and its low
    nibble as [y], both in [0,15], and packing them gives [b] back; packing a
    position [(x, y)] of the 16x16 grid gives the byte [16 x + y] and
    splitting it gives [(x, y)] back.  Both scripts. *)
Theorem grid_mapping_bijection b x y :
  0 <= b <= 255 -> 0 <= x <= 15 -> 0 <= y <= 15 ->
  (let '(bx, by_) := Bitmap.coordinates_from_byte b in
   Bitmap.byte_for_coordinate bx by_ = b /\
   bx = b / 16 /\ by_ = b mod 16 /\ 0 <= bx <= 15 /\ 0 <= by_ <= 15) /\
  (Bitmap.coordinates_from_byte (Bitmap.byte_for_coordinate x y) = (x, y) /\
   Bitmap.byte_for_coordinate x y = 16 * x + y /\
   0 <= Bitmap.byte_for_coordinate x y <= 255) /\
  (let '(bx, by_) := BloomFilter.coordinates_from_byte b in
   BloomFilter.byte_for_coordinate bx by_ = b) /\
  BloomFilter.coordinates_from_byte (BloomFilter.byte_for_coordinate x y) = (x, y).
Proof.
  intros Hb Hx Hy. destruct grid_same as [-> ->].
  assert (Hsplit : let '(bx, by_) := Bitmap.coordinates_from_byte b in
    Bitmap.byte_for_coordinate bx by_ = b /\
    bx = b / 16 /\ by_ = b mod 16 /\ 0 <= bx <= 15 /\ 0 <= by_ <= 15).
  { rewrite coordinates_from_byte_arith, byte_for_coordinate_arith.
    rewrite !Z.mod_mod by lia.
    rewrite (Z.mod_small (b / 16)) by (Z.div_mod_to_equations; lia).
    repeat split; Z.div_mod_to_equations; lia. }
  assert (Hpack : Bitmap.coordinates_from_byte (Bitmap.byte_for_coordinate x y) = (x, y) /\
    Bitmap.byte_for_coordinate x y = 16 * x + y /\
    0 <= Bitmap.byte_for_coordinate x y <= 255).
  { rewrite coordinates_from_byte_arith, byte_for_coordinate_arith.
    rewrite (Z.mod_small x), (Z.mod_small y) by lia.
    repeat split; try lia.
    f_equal; Z.div_mod_to_equations; lia. }
  split; [exact Hsplit|]. split; [exact Hpack|]. split; [|apply Hpack].
  destruct (Bitmap.coordinates_from_byte b). apply Hsplit.
Qed.

Lemma grid_mapping_bijection_witness :
  Bitmap.coordinates_from_byte 0xA7 = (10, 7) /\
  Bitmap.byte_for_coordinate 10 7 = 0xA7 /\
  BloomFilter.coordinates_from_byte (BloomFilter.byte_for_coordinate 3 12) = (3, 12).
Proof.
  pose proof (grid_mapping_bijection 0xA7 3 12
                ltac:(lia) ltac:(lia) ltac:(lia)) as H.
  split; [reflexivity|]. split; [reflexivity|]. apply H.
Defined.

(** C6, as the code has it.  The grid mapping never raises: it masks its
    arguments.  For all integers, [byte_for_coordinate x y] is the byte packed
    from [x mod 16] and [y mod 16], and [coordinates_from_byte b] is the
    position of the byte [b mod 256]; results are always in range. *)
Theorem grid_mapping_masks x y b :
  Bitmap.byte_for_coordinate x y = 16 * (x mod 16) + y mod 16 /\
  Bitmap.byte_for_coordinate x y =
    Bitmap.byte_for_coordinate (x mod 16) (y mod 16) /\
  0 <= Bitmap.byte_for_coordinate x y <= 255 /\
  Bitmap.coordinates_from_byte b = ((b / 16) mod 16, b mod 16) /\
  Bitmap.coordinates_from_byte b = Bitmap.coordinates_from_byte (b mod 256) /\
  BloomFilter.byte_for_coordinate x y = Bitmap.byte_for_coordinate x y /\
  BloomFilter.coordinates_from_byte b = Bitmap.coordinates_from_byte b.
Proof.
  pose proof (Z.mod_pos_bound x 16 ltac:(lia)).
  pose proof (Z.mod_pos_bound y 16 ltac:(lia)).
  rewrite !coordinates_from_byte_arith, !byte_for_coordinate_arith.
  rewrite !Z.mod_mod by lia.
  repeat split; try lia.
  f_equal; Z.div_mod_to_equations; lia.
Qed.

(** C6 as stated fails: out-of-range and negative arguments get a value. *)
Lemma grid_mapping_out_of_range_returns :
  Bitmap.byte_for_coordinate 16 (-1) = 15 /\
  Bitmap.byte_for_coordinate (-1) 0 = 240 /\
  Bitmap.coordinates_from_byte 256 = (0, 0) /\
  Bitmap.coordinates_from_byte (-1) = (15, 15) /\
  BloomFilter.byte_for_coordinate 16 (-1) = 15 /\
  BloomFilter.coordinates_from_byte 256 = (0, 0).
Proof. repeat split. Qed.

(** ** Sizes *)

Lemma size_union_le (X Y : gset Z) : (size (X ∪ Y) <= size X + size Y)%nat.
Proof.
  rewrite size_union_alt.
  assert (size (Y ∖ X) <= size Y)%nat by (apply subseteq_size; set_solver).
  lia.
Qed.

Lemma size_list_to_set_le (l : list Z) :
  (size (list_to_set l : gset Z) <= length l)%nat.
Proof.
  induction l as [|x l IH].
  - change (size (∅ : gset Z) <= 0)%nat. now rewrite size_empty.
  - rewrite list_to_set_cons. etransitivity; [apply size_union_le|].
    rewrite size_singleton. simpl. lia.
Qed.

Lemma size_leading n bs :
  (size (leading n bs) <= Z.to_nat n)%nat /\ (size (leading n bs) <= 32)%nat.
Proof.
  unfold leading.
  pose proof (size_list_to_set_le (take (Z.to_nat n) (SHA256.digest bs))) as H.
  rewrite length_take, digest_length in H. lia.
Qed.

Lemma size_contribution n item : (size (contribution n item) <= Z.to_nat n)%nat.
Proof.
  unfold contribution. destruct (encode_utf8 item) as [bs|e].
  - apply size_leading.
  - rewrite size_empty. lia.
Qed.

Lemma size_union_list_le (k : nat) (Xs : list (gset Z)) :
  Forall (fun X => (size X <= k)%nat) Xs ->
  (size (⋃ Xs) <= length Xs * k)%nat.
Proof.
  induction 1 as [|X Xs HX _ IH].
  - change (size (∅ : gset Z) <= 0)%nat. now rewrite size_empty.
  - rewrite union_list_cons. etransitivity; [apply size_union_le|].
    simpl. lia.
Qed.

Lemma contribution_subseteq n item (entries : list str) :
  item ∈ entries -> contribution n item ⊆ ⋃ (contribution n <$> entries).
Proof.
  intros Hin x Hx. apply elem_of_union_list.
  exists (contribution n item). split; [|exact Hx].
  apply list_elem_of_fmap. eauto.
Qed.

(** ** The specification's sparse hash and the code's contribution *)

Lemma sparse_hash_inr item n s :
  Spec.sparse_hash item n = inr s ->
  1 <= n <= 32 /\ encodable item /\ contribution n item = s.
Proof.
  unfold Spec.sparse_hash, contribution, encodable.
  destruct (Z.leb_spec 1 n), (Z.leb_spec n 32); simpl; try discriminate.
  destruct (encode_utf8 item) as [bs|e]; [|discriminate].
  intros [= <-]. repeat split; lia.
Qed.

Lemma sparse_hash_defined item n :
  1 <= n <= 32 -> encodable item ->
  Spec.sparse_hash item n = inr (contribution n item).
Proof.
  intros Hn Henc. unfold Spec.sparse_hash, contribution.
  destruct (Z.leb_spec 1 n), (Z.leb_spec n 32); try lia. simpl.
  apply encodable_Ok in Henc as [bs ->]. reflexivity.
Qed.

Lemma sparse_hashes_insertable n (entries : list str) sets :
  Forall2 (fun item s => Spec.sparse_hash item n = inr s) entries sets ->
  insertable n entries /\ sets = contribution n <$> entries.
Proof.
  induction 1 as [|item s entries sets Hs _ [[Henc Hn] ->]].
  - repeat split; [constructor | now left].
  - apply sparse_hash_inr in Hs as (Hr & Hitem & <-).
    repeat split; [now constructor | right; lia].
Qed.

(** ** Claims about building and querying *)

(** C2.  With [num_hashes] in [1,32], [create_bloom_filter] returns a new set
    holding exactly the union of the sparse hashes of its entries (the sets
    of the first [num_hashes] bytes of the SHA-256 digests of their UTF-8
    encodings); each sparse hash has at most [num_hashes] elements.  The same
    holds in [BloomFilter.py], where [num_hashes] is the module variable. *)
Theorem create_bloom_filter_is_union gb g (entries : list str) n sets (h : heap) :
  1 <= n <= 32 ->
  Forall2 (fun item s => Spec.sparse_hash item n = inr s) entries sets ->
  BloomFilter.num_hashes g = n ->
  Bitmap.create_bloom_filter gb entries (Some n) h =
    (Ok (length h), h ++ [⋃ sets]) /\
  BloomFilter.create_bloom_filter g entries h =
    (Ok (length h), h ++ [⋃ sets]) /\
  Forall (fun s : gset Z => Z.of_nat (size s) <= n) sets.
Proof.
  intros Hn Hsets Hg. apply sparse_hashes_insertable in Hsets as [Hins ->].
  rewrite create_bloom_filter_same. simpl. subst n.
  rewrite !create_bloom_filter_ok by exact Hins.
  repeat split. apply Forall_fmap, Forall_forall. intros item _. simpl.
  pose proof (size_contribution (BloomFilter.num_hashes g) item). lia.
Qed.

(** The scenario of the specification: four grains, ten hashes. *)
Definition grains : list str := [lit "Oats"; lit "Peas"; lit "Beans"; lit "Barley"].

Lemma create_bloom_filter_is_union_witness :
  let sets := contribution 10 <$> grains in
  Bitmap.create_bloom_filter {| Bitmap.default_bloom := 0 |} grains (Some 10) [∅] =
    (Ok 1%nat, [∅; ⋃ sets]) /\
  BloomFilter.create_bloom_filter BloomFilter.module_init grains [∅] =
    (Ok 1%nat, [∅; ⋃ sets]) /\
  Forall (fun s : gset Z => Z.of_nat (size s) <= 10) sets.
Proof.
  apply (create_bloom_filter_is_union
           {| Bitmap.default_bloom := 0 |} BloomFilter.module_init
           grains 10 (contribution 10 <$> grains) [∅]).
  - lia.
  - repeat constructor; vm_compute; reflexivity.
  - reflexivity.
Defined.

(** Everything [item_in_bloom] does when its item can be inserted. *)
Lemma item_in_bloom_run g item bloom (h : heap) b :
  h !! bloom = Some b ->
  insertable (BloomFilter.num_hashes g) [item] ->
  let s := contribution (BloomFilter.num_hashes g) item in
  BloomFilter.item_in_bloom g item bloom h =
  (Ok (bool_decide (s ⊆ b)), h ++ [s; s ∩ b]).
Proof.
  intros Hb Hins s. unfold BloomFilter.item_in_bloom, bind.
  rewrite create_bloom_filter_ok by exact Hins.
  replace (⋃ (contribution (BloomFilter.num_hashes g) <$> [item])) with s
    by (simpl; set_solver).
  pose proof (lookup_lt_Some _ _ _ Hb) as Hlt.
  unfold set_and.
  rewrite list_lookup_middle by reflexivity.
  rewrite lookup_app_l, Hb by exact Hlt.
  unfold set_eq.
  rewrite list_lookup_middle by reflexivity.
  rewrite (lookup_app_l (h ++ [s])) by (rewrite length_app; simpl; lia).
  rewrite list_lookup_middle by reflexivity.
  rewrite <- app_assoc. simpl. do 2 f_equal.
  apply bool_decide_ext. set_solver.
Qed.

(** C3.  On a filter set [b], [item_in_bloom] returns [True] exactly when the
    query's sparse hash (same [num_hashes]) is a subset of [b]; it returns
    [False] otherwise, and leaves the filter as it was. *)
Theorem item_in_bloom_iff_subset gb g item bloom n (h : heap) b s :
  h !! bloom = Some b ->
  Spec.sparse_hash item n = inr s ->
  BloomFilter.num_hashes g = n ->
  (exists r h',
     Bitmap.item_in_bloom gb item bloom n h = (Ok r, h') /\
     (r = true <-> s ⊆ b) /\ h' !! bloom = Some b) /\
  (exists r h',
     BloomFilter.item_in_bloom g item bloom h = (Ok r, h') /\
     (r = true <-> s ⊆ b) /\ h' !! bloom = Some b).
Proof.
  intros Hb Hs Hg. apply sparse_hash_inr in Hs as (Hn & Henc & <-).
  assert (Hrun : forall g', BloomFilter.num_hashes g' = n ->
    exists r h',
      BloomFilter.item_in_bloom g' item bloom h = (Ok r, h') /\
      (r = true <-> contribution n item ⊆ b) /\ h' !! bloom = Some b).
  { intros g' <-. eexists _, _. split; [|split].
    - apply item_in_bloom_run; [exact Hb|].
      split; [now constructor | right; lia].
    - apply bool_decide_eq_true.
    - rewrite lookup_app_l; [exact Hb|]. now apply lookup_lt_Some in Hb. }
  split; [|now apply Hrun].
  rewrite item_in_bloom_same. now apply Hrun.
Qed.

Lemma item_in_bloom_iff_subset_witness :
  (exists r h',
     Bitmap.item_in_bloom {| Bitmap.default_bloom := 0 |} (lit "Oats") 1%nat 10
       [∅; ⋃ (contribution 10 <$> grains)] = (Ok r, h') /\
     (r = true <-> contribution 10 (lit "Oats") ⊆ ⋃ (contribution 10 <$> grains)) /\
     h' !! 1%nat = Some (⋃ (contribution 10 <$> grains))) /\
  (exists r h',
     BloomFilter.item_in_bloom BloomFilter.module_init (lit "Oats") 1%nat
       [∅; ⋃ (contribution 10 <$> grains)] = (Ok r, h') /\
     (r = true <-> contribution 10 (lit "Oats") ⊆ ⋃ (contribution 10 <$> grains)) /\
     h' !! 1%nat = Some (⋃ (contribution 10 <$> grains))).
Proof.
  apply (item_in_bloom_iff_subset
           {| Bitmap.default_bloom := 0 |} BloomFilter.module_init
           (lit "Oats") 1%nat 10 [∅; ⋃ (contribution 10 <$> grains)]).
  - reflexivity.
  - vm_compute. reflexivity.
  - reflexivity.
Defined.

(** C4.  Once a filter has been built from a list, [item_in_bloom] with the
    same [num_hashes] answers [True] for every item of that list. *)
Theorem no_false_negatives gb g (entries : list str) item (h h1 : heap) l :
  BloomFilter.create_bloom_filter g entries h = (Ok l, h1) ->
  item ∈ entries ->
  (exists h2, BloomFilter.item_in_bloom g item l h1 = (Ok true, h2)) /\
  Bitmap.create_bloom_filter gb entries (Some (BloomFilter.num_hashes g)) h =
    (Ok l, h1) /\
  (exists h2,
     Bitmap.item_in_bloom gb item l (BloomFilter.num_hashes g) h1 = (Ok true, h2)).
Proof.
  intros Hbuild Hin.
  pose proof (create_bloom_filter_inv _ _ _ _ _ Hbuild) as Hins.
  assert (Hitem : insertable (BloomFilter.num_hashes g) [item]).
  { destruct Hins as [Henc Hn]. split.
    - constructor; [|constructor]. rewrite Forall_forall in Henc. now apply Henc.
    - right. destruct Hn as [->|Hn]; [|exact Hn]. now apply not_elem_of_nil in Hin. }
  assert (Hsame : Bitmap.create_bloom_filter gb entries
            (Some (BloomFilter.num_hashes g)) h = (Ok l, h1)).
  { rewrite create_bloom_filter_same. simpl.
    now destruct g. }
  rewrite create_bloom_filter_ok in Hbuild by exact Hins.
  injection Hbuild as <- <-.
  assert (Htest : forall g', BloomFilter.num_hashes g' = BloomFilter.num_hashes g ->
    exists h2, BloomFilter.item_in_bloom g' item (length h)
      (h ++ [⋃ (contribution (BloomFilter.num_hashes g) <$> entries)]) = (Ok true, h2)).
  { intros g' Hg'. eexists.
    rewrite (item_in_bloom_run g' item (length h) _
               (⋃ (contribution (BloomFilter.num_hashes g) <$> entries)));
      [|apply list_lookup_middle; reflexivity|now rewrite Hg'].
    rewrite Hg'. rewrite bool_decide_eq_true_2; [reflexivity|].
    now apply contribution_subseteq. }
  split; [now apply Htest|]. split; [exact Hsame|].
  destruct (Htest {| BloomFilter.num_hashes := BloomFilter.num_hashes g |} eq_refl)
    as [h2 Hh2].
  exists h2. now rewrite item_in_bloom_same.
Qed.

Lemma no_false_negatives_witness :
  let filter := ⋃ (contribution 10 <$> grains) in
  (exists h2, BloomFilter.item_in_bloom BloomFilter.module_init (lit "Oats")
                0%nat [filter] = (Ok true, h2)) /\
  Bitmap.create_bloom_filter {| Bitmap.default_bloom := 7 |} grains (Some 10) [] =
    (Ok 0%nat, [filter]) /\
  (exists h2, Bitmap.item_in_bloom {| Bitmap.default_bloom := 7 |} (lit "Oats")
                0%nat 10 [filter] = (Ok true, h2)).
Proof.
  apply (no_false_negatives {| Bitmap.default_bloom := 7 |}
           BloomFilter.module_init grains (lit "Oats") []).
  - vm_compute. reflexivity.
  - left.
Defined.

(** C7.  A filter built from a permutation of the entries holds the same
    elements: if building from [es1] succeeds, so does building from any
    permutation [es2] of it, on any heap, and the two sets are equal. *)
Theorem create_bloom_filter_order_independent
    gb g (es1 es2 : list str) (h1 h1' h2 : heap) l1 :
  es1 ≡ₚ es2 ->
  BloomFilter.create_bloom_filter g es1 h1 = (Ok l1, h1') ->
  exists s,
    h1' !! l1 = Some s /\
    BloomFilter.create_bloom_filter g es2 h2 = (Ok (length h2), h2 ++ [s]) /\
    Bitmap.create_bloom_filter gb es1 (Some (BloomFilter.num_hashes g)) h1 =
      (Ok l1, h1') /\
    Bitmap.create_bloom_filter gb es2 (Some (BloomFilter.num_hashes g)) h2 =
      (Ok (length h2), h2 ++ [s]).
Proof.
  intros Hperm Hbuild.
  pose proof (create_bloom_filter_inv _ _ _ _ _ Hbuild) as Hins1.
  assert (Hins2 : insertable (BloomFilter.num_hashes g) es2).
  { destruct Hins1 as [Henc Hn]. split.
    - now rewrite <- Hperm.
    - destruct Hn as [->|Hn]; [left | now right].
      now apply Permutation_nil_l in Hperm. }
  assert (Hsets : ⋃ (contribution (BloomFilter.num_hashes g) <$> es2) =
                  ⋃ (contribution (BloomFilter.num_hashes g) <$> es1)).
  { now rewrite Hperm. }
  rewrite !create_bloom_filter_same. simpl.
  replace {| BloomFilter.num_hashes := BloomFilter.num_hashes g |} with g
    by now destruct g.
  rewrite Hbuild. rewrite create_bloom_filter_ok in Hbuild by exact Hins1.
  injection Hbuild as <- <-.
  exists (⋃ (contribution (BloomFilter.num_hashes g) <$> es1)).
  rewrite create_bloom_filter_ok by exact Hins2. rewrite Hsets.
  repeat split. apply list_lookup_middle. reflexivity.
Qed.

Lemma create_bloom_filter_order_independent_witness :
  let abc := [lit "A"; lit "B"; lit "C"] in
  let cba := [lit "C"; lit "B"; lit "A"] in
  let g := {| BloomFilter.num_hashes := 8 |} in
  let gb := {| Bitmap.default_bloom := 0 |} in
  exists s,
    [∅; ⋃ (contribution 8 <$> abc)] !! 1%nat = Some s /\
    BloomFilter.create_bloom_filter g cba [∅; ∅] = (Ok 2%nat, [∅; ∅; s]) /\
    Bitmap.create_bloom_filter gb abc (Some 8) [∅] =
      (Ok 1%nat, [∅; ⋃ (contribution 8 <$> abc)]) /\
    Bitmap.create_bloom_filter gb cba (Some 8) [∅; ∅] = (Ok 2%nat, [∅; ∅; s]).
Proof.
  apply (create_bloom_filter_order_independent
           {| Bitmap.default_bloom := 0 |} {| BloomFilter.num_hashes := 8 |}
           [lit "A"; lit "B"; lit "C"] [lit "C"; lit "B"; lit "A"]
           [∅] [∅; ⋃ (contribution 8 <$> [lit "A"; lit "B"; lit "C"])] [∅; ∅] 1%nat).
  - apply (Permutation_rev [lit "A"; lit "B"; lit "C"]).
  - vm_compute. reflexivity.
Defined.

(** ** Insertion only adds *)

Lemma add_to_bloom_filter_grows g item l (h : heap) s :
  h !! l = Some s ->
  let h' := snd (BloomFilter.add_to_bloom_filter g item l h) in
  (exists s', h' !! l = Some s' /\ s ⊆ s') /\
  length h' = length h /\
  (forall l', l' <> l -> h' !! l' = h !! l').
Proof.
  intros Hl. rewrite add_to_bloom_filter_run, Hl.
  pose proof (lookup_lt_Some _ _ _ Hl) as Hlt.
  destruct (encode_utf8 item) as [bs|e]; simpl.
  - destruct (decide (BloomFilter.num_hashes g <= 32)); simpl;
      (split; [eexists; split; [now apply list_lookup_insert_eq | set_solver]|]);
      (split; [apply length_insert|]);
      intros l' Hl'; now apply list_lookup_insert_ne.
  - split; [exists s; split; [exact Hl | reflexivity]|]. split; reflexivity.
Qed.

(** C8.  An insertion never removes an element: whatever the string and
    [num_hashes], and whether the call returns or raises, the set that was in
    the filter before is a subset of the set that is in it afterwards (other
    sets are not touched).  In [Bitmap.py] the filter is the [bloom] argument,
    or the default object when [bloom] is omitted. *)
Theorem insert_never_removes gb g item n bloom (h : heap) l s :
  h !! l = Some s ->
  default (Bitmap.default_bloom gb) bloom = l ->
  (let h' := snd (BloomFilter.add_to_bloom_filter g item l h) in
   (exists s', h' !! l = Some s' /\ s ⊆ s') /\
   length h' = length h /\
   (forall l', l' <> l -> h' !! l' = h !! l')) /\
  (let h' := snd (Bitmap.add_to_32_bit_bloom_filter gb item n bloom h) in
   (exists s', h' !! l = Some s' /\ s ⊆ s') /\
   length h' = length h /\
   (forall l', l' <> l -> h' !! l' = h !! l')).
Proof.
  intros Hl Hbloom. split; [now apply add_to_bloom_filter_grows|].
  rewrite add_to_32_bit_bloom_filter_run, Hbloom.
  pose proof (add_to_bloom_filter_grows
    {| BloomFilter.num_hashes := default Bitmap.default_num_hashes n |}
    item l h s Hl) as Hgrow.
  unfold bind, ret.
  destruct (BloomFilter.add_to_bloom_filter _ item l h) as [[[]|e] h1];
    exact Hgrow.
Qed.

Lemma insert_never_removes_witness :
  let h := [{[1; 2; 3]} : gset Z] in
  let h' := snd (Bitmap.add_to_32_bit_bloom_filter
                   {| Bitmap.default_bloom := 0 |} (lit "Oats") (Some 40) None h) in
  exists s', h' !! 0%nat = Some s' /\ ({[1; 2; 3]} : gset Z) ⊆ s'.
Proof.
  pose proof (insert_never_removes
    {| Bitmap.default_bloom := 0 |} BloomFilter.module_init (lit "Oats")
    (Some 40) None [{[1; 2; 3]} : gset Z] 0%nat {[1; 2; 3]}
    eq_refl eq_refl) as [_ [H _]].
  exact H.
Defined.

(** ** Size of a filter *)

(** C9.  A filter built from [k] entries with [num_hashes = n >= 0] has at
    most [k * n] elements, and at least as many as the sparse hash of any one
    of its entries.  (For [n = 10] and the four grains: at most 40.) *)
Theorem filter_size_bounds gb g (entries : list str) (h h1 : heap) l :
  0 <= BloomFilter.num_hashes g ->
  BloomFilter.create_bloom_filter g entries h = (Ok l, h1) ->
  let n := BloomFilter.num_hashes g in
  exists s,
    h1 !! l = Some s /\
    Z.of_nat (size s) <= Z.of_nat (length entries) * n /\
    (forall item, item ∈ entries ->
       (size (contribution n item) <= size s)%nat /\
       (1 <= n -> Spec.sparse_hash item n = inr (contribution n item))) /\
    Bitmap.create_bloom_filter gb entries (Some n) h = (Ok l, h1).
Proof.
  intros Hn Hbuild n.
  pose proof (create_bloom_filter_inv _ _ _ _ _ Hbuild) as Hins.
  assert (Hsame : Bitmap.create_bloom_filter gb entries (Some n) h = (Ok l, h1)).
  { rewrite create_bloom_filter_same. simpl. subst n. now destruct g. }
  rewrite create_bloom_filter_ok in Hbuild by exact Hins.
  injection Hbuild as <- <-. fold n.
  exists (⋃ (contribution n <$> entries)).
  split; [apply list_lookup_middle; reflexivity|].
  split; [|split; [|exact Hsame]].
  - pose proof (size_union_list_le (Z.to_nat n) (contribution n <$> entries)) as Hle.
    rewrite length_fmap in Hle.
    assert (size (⋃ (contribution n <$> entries))
            <= length entries * Z.to_nat n)%nat as Hsz.
    { apply Hle, Forall_fmap, Forall_forall. intros item _.
      apply size_contribution. }
    nia.
  - intros item Hin. split.
    + apply subseteq_size. now apply contribution_subseteq.
    + intros H1. apply sparse_hash_defined.
      * destruct Hins as [_ [->|H32]]; [now apply not_elem_of_nil in Hin|].
        subst n. lia.
      * destruct Hins as [Henc _]. rewrite Forall_forall in Henc. now apply Henc.
Qed.

Lemma filter_size_bounds_witness :
  exists s,
    snd (BloomFilter.create_bloom_filter BloomFilter.module_init grains [])
      !! 0%nat = Some s /\
    (size s <= 40)%nat /\
    (size (contribution 10 (lit "Oats")) <= size s)%nat /\
    Bitmap.create_bloom_filter {| Bitmap.default_bloom := 0 |} grains (Some 10) [] =
      (Ok 0%nat, [s]).
Proof.
  destruct (filter_size_bounds {| Bitmap.default_bloom := 0 |}
              BloomFilter.module_init grains []
              [⋃ (contribution 10 <$> grains)] 0%nat)
    as (s & Hs & Hmax & Hmin & Hbitmap).
  - simpl. lia.
  - vm_compute. reflexivity.
  - injection Hs as <-.
    exists (⋃ (contribution 10 <$> grains)). split; [vm_compute; reflexivity|].
    split; [|split; [|exact Hbitmap]].
    { change (Z.of_nat (size (⋃ (contribution 10 <$> grains))) <= 40) in Hmax.
      lia. }
    apply (Hmin (lit "Oats")). left.
Defined.

(** The scenario's filter has 33 elements; the sparse hash of "Oats" has 9,
    the digest of "Oats" repeating the byte 78 among its first ten. *)
Example grains_filter_size :
  size (⋃ (contribution 10 <$> grains)) = 33%nat /\
  size (contribution 10 (lit "Oats")) = 9%nat.
Proof. split; vm_compute; reflexivity. Qed.

(** ** Boundaries of [num_hashes] *)

Lemma leading_32 bs : leading 32 bs = list_to_set (SHA256.digest bs).
Proof.
  unfold leading. rewrite take_ge; [reflexivity|].
  rewrite digest_length. reflexivity.
Qed.

Lemma leading_0 bs : leading 0 bs = ∅.
Proof. reflexivity. Qed.

(** C5, as the code has it.  For a string that has a UTF-8 encoding:
    [num_hashes = 32] is accepted and adds the at most 32 distinct bytes of
    the digest; [num_hashes = 33] raises [IndexError], after the 32 bytes of
    the digest were added; [num_hashes = 0] is accepted too and adds nothing. *)
Theorem num_hashes_boundaries gb item bs l (h : heap) s :
  encode_utf8 item = Ok bs ->
  h !! l = Some s ->
  let whole : gset Z := list_to_set (SHA256.digest bs) in
  (size whole <= 32)%nat /\
  Bitmap.add_to_32_bit_bloom_filter gb item (Some 32) (Some l) h =
    (Ok set_class, <[l := whole ∪ s]> h) /\
  Bitmap.add_to_32_bit_bloom_filter gb item (Some 33) (Some l) h =
    (Raise IndexError, <[l := whole ∪ s]> h) /\
  Bitmap.add_to_32_bit_bloom_filter gb item (Some 0) (Some l) h =
    (Ok set_class, h) /\
  BloomFilter.add_to_bloom_filter {| BloomFilter.num_hashes := 32 |} item l h =
    (Ok tt, <[l := whole ∪ s]> h) /\
  BloomFilter.add_to_bloom_filter {| BloomFilter.num_hashes := 33 |} item l h =
    (Raise IndexError, <[l := whole ∪ s]> h) /\
  BloomFilter.add_to_bloom_filter {| BloomFilter.num_hashes := 0 |} item l h =
    (Ok tt, h).
Proof.
  intros Hbs Hl whole.
  assert (H0 : <[l := leading 0 bs ∪ s]> h = h).
  { apply list_insert_id. rewrite Hl, leading_0. f_equal. set_solver. }
  split; [unfold whole; rewrite <- leading_32; apply size_leading|].
  rewrite !add_to_32_bit_bloom_filter_run. unfold bind, ret. simpl.
  rewrite !add_to_bloom_filter_run, Hbs, Hl. simpl.
  rewrite H0, leading_32. repeat split.
Qed.

Lemma num_hashes_boundaries_witness :
  BloomFilter.add_to_bloom_filter {| BloomFilter.num_hashes := 33 |}
    (lit "Tomato") 0%nat [∅] =
  (Raise IndexError,
   [contribution 32 (lit "Tomato") ∪ ∅]).
Proof.
  destruct (num_hashes_boundaries {| Bitmap.default_bloom := 0 |}
              (lit "Tomato") [84; 111; 109; 97; 116; 111] 0%nat [∅] ∅)
    as (_ & _ & _ & _ & _ & H33 & _).
  - vm_compute. reflexivity.
  - reflexivity.
  - rewrite H33. vm_compute. reflexivity.
Defined.

(** C5 as stated fails at [num_hashes = 0]: the call returns, nothing is
    raised, and the filter is left as it was. *)
Lemma num_hashes_zero_accepted :
  Bitmap.add_to_32_bit_bloom_filter {| Bitmap.default_bloom := 0 |}
    (lit "Tomato") (Some 0) (Some 0%nat) [∅] = (Ok set_class, [∅]) /\
  BloomFilter.add_to_bloom_filter {| BloomFilter.num_hashes := 0 |}
    (lit "Tomato") 0%nat [∅] = (Ok tt, [∅]) /\
  ~ raises (fst (Bitmap.add_to_32_bit_bloom_filter {| Bitmap.default_bloom := 0 |}
                   (lit "Tomato") (Some 0) (Some 0%nat) [∅])) /\
  ~ raises (fst (BloomFilter.add_to_bloom_filter {| BloomFilter.num_hashes := 0 |}
                   (lit "Tomato") 0%nat [∅])).
Proof.
  split; [vm_compute; reflexivity|]. split; [vm_compute; reflexivity|].
  split; intros [e He]; vm_compute in He; discriminate.
Qed.

(** ** The default [bloom] of [add_to_32_bit_bloom_filter] *)

(** When the module is loaded, the default [bloom] is one new empty set. *)
Lemma module_init_run (h : heap) :
  Bitmap.module_init h = (Ok {| Bitmap.default_bloom := length h |}, h ++ [∅]).
Proof. reflexivity. Qed.

(** C10.  In [Bitmap.py], calls of [add_to_32_bit_bloom_filter] that omit
    [bloom] all write to the one set made when the function was defined.
    After two such calls the shared set holds what it held before and the
    bytes of both strings, whereas the second call on its own would leave only
    its own bytes there: whenever the first string adds a byte the second does
    not, the state after the second call shows that the first took place. *)
Theorem default_bloom_is_shared gb item1 item2 n1 n2 bs1 bs2 (h : heap) s0 :
  h !! Bitmap.default_bloom gb = Some s0 ->
  encode_utf8 item1 = Ok bs1 ->
  encode_utf8 item2 = Ok bs2 ->
  default Bitmap.default_num_hashes n1 <= 32 ->
  default Bitmap.default_num_hashes n2 <= 32 ->
  let d := Bitmap.default_bloom gb in
  let s1 := leading (default Bitmap.default_num_hashes n1) bs1 in
  let s2 := leading (default Bitmap.default_num_hashes n2) bs2 in
  let both := (Bitmap.add_to_32_bit_bloom_filter gb item1 n1 None ;;;
               Bitmap.add_to_32_bit_bloom_filter gb item2 n2 None) h in
  let alone := Bitmap.add_to_32_bit_bloom_filter gb item2 n2 None h in
  Bitmap.add_to_32_bit_bloom_filter gb item1 n1 None h =
    (Ok set_class, <[d := s1 ∪ s0]> h) /\
  both = (Ok set_class, <[d := s2 ∪ (s1 ∪ s0)]> h) /\
  alone = (Ok set_class, <[d := s2 ∪ s0]> h) /\
  (exists s, snd both !! d = Some s /\ s1 ⊆ s /\ s2 ⊆ s /\ s0 ⊆ s) /\
  (~ s1 ⊆ s2 ∪ s0 -> snd both <> snd alone).
Proof.
  intros Hd Hbs1 Hbs2 Hn1 Hn2 d s1 s2 both alone.
  pose proof (lookup_lt_Some _ _ _ Hd) as Hlt.
  assert (Hcall : forall item n bs (h1 : heap) s,
    h1 !! d = Some s -> encode_utf8 item = Ok bs ->
    default Bitmap.default_num_hashes n <= 32 ->
    Bitmap.add_to_32_bit_bloom_filter gb item n None h1 =
    (Ok set_class,
     <[d := leading (default Bitmap.default_num_hashes n) bs ∪ s]> h1)).
  { intros item n bs h1 s Hs Hbs Hn.
    rewrite add_to_32_bit_bloom_filter_run. unfold bind, ret.
    rewrite add_to_bloom_filter_run, Hbs.
    cbn [default from_option BloomFilter.num_hashes].
    fold d. rewrite Hs. now rewrite decide_True by exact Hn. }
  assert (Hfirst := Hcall item1 n1 bs1 h s0 Hd Hbs1 Hn1).
  assert (Hboth : both = (Ok set_class, <[d := s2 ∪ (s1 ∪ s0)]> h)).
  { unfold both, bind. rewrite Hfirst.
    rewrite (Hcall item2 n2 bs2 _ (s1 ∪ s0));
      [|now apply list_lookup_insert_eq|exact Hbs2|exact Hn2].
    now rewrite list_insert_insert_eq. }
  assert (Halone := Hcall item2 n2 bs2 h s0 Hd Hbs2 Hn2). fold alone in Halone.
  split; [exact Hfirst|]. split; [exact Hboth|]. split; [exact Halone|].
  rewrite Hboth, Halone. simpl. split.
  - exists (s2 ∪ (s1 ∪ s0)). split; [now apply list_lookup_insert_eq|].
    set_solver.
  - intros Hnew Heq.
    assert (Hlook : <[d := s2 ∪ (s1 ∪ s0)]> h !! d = <[d := s2 ∪ s0]> h !! d)
      by now rewrite Heq.
    rewrite !list_lookup_insert_eq in Hlook by exact Hlt.
    injection Hlook as Hsets. apply Hnew. rewrite <- Hsets. set_solver.
Qed.

Lemma default_bloom_is_shared_witness :
  let gb := {| Bitmap.default_bloom := 0 |} in
  Bitmap.module_init [] = (Ok gb, [∅]) /\
  (Bitmap.add_to_32_bit_bloom_filter gb (lit "A") None None ;;;
   Bitmap.add_to_32_bit_bloom_filter gb (lit "B") None None) [∅] =
  (Ok set_class, [contribution 8 (lit "B") ∪ (contribution 8 (lit "A") ∪ ∅)]) /\
  Bitmap.add_to_32_bit_bloom_filter gb (lit "B") None None [∅] =
  (Ok set_class, [contribution 8 (lit "B") ∪ ∅]).
Proof.
  split; [reflexivity|].
  destruct (default_bloom_is_shared {| Bitmap.default_bloom := 0 |}
              (lit "A") (lit "B") None None [65] [66] [∅] ∅)
    as (_ & Hboth & Halone & _).
  - reflexivity.
  - vm_compute. reflexivity.
  - vm_compute. reflexivity.
  - vm_compute. discriminate.
  - vm_compute. discriminate.
  - rewrite Hboth, Halone. split; vm_compute; reflexivity.
Defined.

(** With "A" then "B", the shared set ends with 16 bytes, eight of them from
    the call for "A"; a call for "B" alone leaves 8. *)
Example default_bloom_leak :
  let gb := {| Bitmap.default_bloom := 0 |} in
  (fun s : gset Z => size s) <$>
    snd ((Bitmap.add_to_32_bit_bloom_filter gb (lit "A") None None ;;;
          Bitmap.add_to_32_bit_bloom_filter gb (lit "B") None None) [∅]) =
  [16%nat] /\
  (fun s : gset Z => size s) <$>
    snd (Bitmap.add_to_32_bit_bloom_filter gb (lit "B") None None [∅]) =
  [8%nat].
Proof. split; vm_compute; reflexivity. Qed.

(** * Beyond the claims *)

Example notify_items_default :
  Bitmap.notify_items (lit "Oats" ++ [10] ++ lit "Peas" ++ [10] ++ lit "Beans"
                         ++ [10] ++ lit "Barley") = grains /\
  BloomFilter.notify_items (lit " a b" ++ [9; 10; 10; 32]) = [lit "a b"; []; []].
Proof. split; vm_compute; reflexivity. Qed.

(** ** When a filter can be built, and what a failed build leaves *)

Lemma insert_all_frame g (entries : list str) l (h : heap) s :
  h !! l = Some s ->
  exists s', s ⊆ s' /\
    snd (for_each entries
           (fun item => BloomFilter.add_to_bloom_filter g item l) h) =
    <[l := s']> h.
Proof.
  revert h s. induction entries as [|item entries IH]; intros h s Hl.
  - exists s. split; [reflexivity|]. simpl. symmetry. now apply list_insert_id.
  - simpl. unfold bind.
    pose proof (lookup_lt_Some _ _ _ Hl) as Hlt.
    rewrite add_to_bloom_filter_run, Hl.
    destruct (encode_utf8 item) as [bs|e].
    + destruct (decide (BloomFilter.num_hashes g <= 32)).
      * destruct (IH (<[l := leading (BloomFilter.num_hashes g) bs ∪ s]> h)
                     (leading (BloomFilter.num_hashes g) bs ∪ s))
          as (s' & Hsub & Hrun); [now apply list_lookup_insert_eq|].
        exists s'. split; [set_solver|].
        rewrite Hrun. apply list_insert_insert_eq.
      * exists (leading 32 bs ∪ s). split; [set_solver | reflexivity].
    + exists s. split; [reflexivity|]. simpl. symmetry. now apply list_insert_id.
Qed.

(** X1.  [create_bloom_filter] returns a filter exactly when every entry has
    a UTF-8 encoding and, unless there is no entry at all, [num_hashes] is at
    most 32; in every other case it raises. *)
Theorem create_bloom_filter_succeeds_iff gb g (entries : list str) n (h : heap) :
  (is_ok (fst (BloomFilter.create_bloom_filter g entries h)) = true <->
   Forall encodable entries /\ (entries = [] \/ BloomFilter.num_hashes g <= 32)) /\
  (is_ok (fst (Bitmap.create_bloom_filter gb entries (Some n) h)) = true <->
   Forall encodable entries /\ (entries = [] \/ n <= 32)).
Proof.
  assert (Hiff : forall g', is_ok (fst (BloomFilter.create_bloom_filter g' entries h)) = true <->
    insertable (BloomFilter.num_hashes g') entries).
  { intros g'. split.
    - destruct (BloomFilter.create_bloom_filter g' entries h) as [[l|e] h1] eqn:Hrun;
        [|discriminate].
      intros _. eapply create_bloom_filter_inv, Hrun.
    - intros Hins. now rewrite create_bloom_filter_ok. }
  split; [apply Hiff|]. rewrite create_bloom_filter_same. apply Hiff.
Qed.

(** X2.  Building a filter allocates exactly one set and writes to no other:
    the heap afterwards is the heap before with one set appended, whether the
    call returns or raises. *)
Theorem create_bloom_filter_frame gb g (entries : list str) n (h : heap) :
  (exists s, snd (BloomFilter.create_bloom_filter g entries h) = h ++ [s]) /\
  (exists s, snd (Bitmap.create_bloom_filter gb entries n h) = h ++ [s]).
Proof.
  assert (Hframe : forall g',
    exists s, snd (BloomFilter.create_bloom_filter g' entries h) = h ++ [s]).
  { intros g'. unfold BloomFilter.create_bloom_filter, bind, new_set.
    destruct (insert_all_frame g' entries (length h) (h ++ [∅]) ∅)
      as (s & _ & Hrun); [apply list_lookup_middle; reflexivity|].
    exists s.
    destruct (for_each entries _ (h ++ [∅])) as [[[]|e] h1]; simpl in *;
      subst h1; rewrite <- (Nat.add_0_r (length h)) at 1;
      now rewrite insert_app_r. }
  split; [apply Hframe|]. rewrite create_bloom_filter_same. apply Hframe.
Qed.

(** X3.  Beyond the digest and below one hash.  For a string with a UTF-8
    encoding and a filter set [s]: every [num_hashes] above 32 raises
    [IndexError] once the 32 bytes of the digest are in the filter; every
    [num_hashes] of zero or less returns and leaves the heap as it was. *)
Theorem num_hashes_out_of_range gb g item bs l (h : heap) s :
  encode_utf8 item = Ok bs ->
  h !! l = Some s ->
  let n := BloomFilter.num_hashes g in
  let whole : gset Z := list_to_set (SHA256.digest bs) in
  (32 < n ->
   BloomFilter.add_to_bloom_filter g item l h =
     (Raise IndexError, <[l := whole ∪ s]> h) /\
   Bitmap.add_to_32_bit_bloom_filter gb item (Some n) (Some l) h =
     (Raise IndexError, <[l := whole ∪ s]> h)) /\
  (n <= 0 ->
   BloomFilter.add_to_bloom_filter g item l h = (Ok tt, h) /\
   Bitmap.add_to_32_bit_bloom_filter gb item (Some n) (Some l) h =
     (Ok set_class, h)).
Proof.
  intros Hbs Hl n whole.
  rewrite add_to_32_bit_bloom_filter_run. unfold bind, ret.
  cbn [from_option id].
  replace {| BloomFilter.num_hashes := n |} with g
    by (subst n; now destruct g).
  rewrite add_to_bloom_filter_run, Hbs, Hl. fold n. split; intros Hn.
  - rewrite decide_False by lia. now rewrite leading_32.
  - rewrite decide_True by lia.
    assert (Hnone : leading n bs = ∅).
    { unfold leading. now rewrite Z2Nat.nonpos by exact Hn. }
    rewrite Hnone.
    replace (<[l := ∅ ∪ s]> h) with h; [split; reflexivity|].
    symmetry. apply list_insert_id. rewrite Hl. f_equal. set_solver.
Qed.

Lemma num_hashes_out_of_range_witness :
  BloomFilter.add_to_bloom_filter {| BloomFilter.num_hashes := 100 |}
    (lit "Tomato") 0%nat [∅] =
  (Raise IndexError, [contribution 32 (lit "Tomato") ∪ ∅]) /\
  BloomFilter.add_to_bloom_filter {| BloomFilter.num_hashes := -5 |}
    (lit "Tomato") 0%nat [{[7]}] = (Ok tt, [{[7]}]).
Proof.
  split.
  - destruct (num_hashes_out_of_range {| Bitmap.default_bloom := 0 |}
                {| BloomFilter.num_hashes := 100 |}
                (lit "Tomato") [84; 111; 109; 97; 116; 111] 0%nat [∅] ∅)
      as [Hhigh _]; [vm_compute; reflexivity | reflexivity |].
    destruct Hhigh as [Hhigh _]; [simpl; lia|].
    rewrite Hhigh. vm_compute. reflexivity.
  - destruct (num_hashes_out_of_range {| Bitmap.default_bloom := 0 |}
                {| BloomFilter.num_hashes := -5 |}
                (lit "Tomato") [84; 111; 109; 97; 116; 111] 0%nat [{[7]}] {[7]})
      as [_ Hlow]; [vm_compute; reflexivity | reflexivity |].
    destruct Hlow as [Hlow _]; [simpl; lia|]. exact Hlow.
Defined.

(** X4.  Inserting a string a second time changes nothing: two calls in a row
    end as one call does, with the same result and the same heap, for every
    string, filter and [num_hashes]. *)
Theorem insert_idempotent gb g item n bloom l (h : heap) :
  (BloomFilter.add_to_bloom_filter g item l ;;;
   BloomFilter.add_to_bloom_filter g item l) h =
  BloomFilter.add_to_bloom_filter g item l h /\
  (Bitmap.add_to_32_bit_bloom_filter gb item n bloom ;;;
   Bitmap.add_to_32_bit_bloom_filter gb item n bloom) h =
  Bitmap.add_to_32_bit_bloom_filter gb item n bloom h.
Proof.
  assert (Htwice : forall g' l' (h0 : heap),
    (BloomFilter.add_to_bloom_filter g' item l' ;;;
     BloomFilter.add_to_bloom_filter g' item l') h0 =
    BloomFilter.add_to_bloom_filter g' item l' h0).
  { intros g' l' h0. unfold bind. rewrite add_to_bloom_filter_run.
    destruct (encode_utf8 item) as [bs|e] eqn:Hbs; [|reflexivity].
    destruct (h0 !! l') as [s|] eqn:Hl.
    - pose proof (lookup_lt_Some _ _ _ Hl) as Hlt.
      destruct (decide (BloomFilter.num_hashes g' <= 32)) as [Hn|Hn]; [|reflexivity].
      rewrite add_to_bloom_filter_run, Hbs, list_lookup_insert_eq by exact Hlt.
      rewrite decide_True by exact Hn. rewrite list_insert_insert_eq.
      do 2 f_equal. set_solver.
    - destruct (decide (BloomFilter.num_hashes g' <= 0)) as [Hn|Hn]; [|reflexivity].
      rewrite add_to_bloom_filter_run, Hbs, Hl. now rewrite decide_True. }
  split; [apply Htwice|].
  specialize (Htwice {| BloomFilter.num_hashes := default Bitmap.default_num_hashes n |}
                (default (Bitmap.default_bloom gb) bloom) h).
  unfold bind in *. rewrite !add_to_32_bit_bloom_filter_run. unfold bind, ret.
  destruct (BloomFilter.add_to_bloom_filter _ item _ h) as [[[]|e] h1];
    [|reflexivity].
  rewrite add_to_32_bit_bloom_filter_run. unfold bind, ret.
  now rewrite Htwice.
Qed.

(** X5.  Two insertions commute: for strings with a UTF-8 encoding and
    [num_hashes] at most 32, inserting [a] then [b] returns and leaves the
    heap that inserting [b] then [a] leaves. *)
Theorem insert_commutes gb g a b l (h : heap) s :
  h !! l = Some s ->
  encodable a -> encodable b ->
  BloomFilter.num_hashes g <= 32 ->
  let n := Some (BloomFilter.num_hashes g) in
  (BloomFilter.add_to_bloom_filter g a l ;;;
   BloomFilter.add_to_bloom_filter g b l) h =
  (BloomFilter.add_to_bloom_filter g b l ;;;
   BloomFilter.add_to_bloom_filter g a l) h /\
  fst ((BloomFilter.add_to_bloom_filter g a l ;;;
        BloomFilter.add_to_bloom_filter g b l) h) = Ok tt /\
  (Bitmap.add_to_32_bit_bloom_filter gb a n (Some l) ;;;
   Bitmap.add_to_32_bit_bloom_filter gb b n (Some l)) h =
  (Bitmap.add_to_32_bit_bloom_filter gb b n (Some l) ;;;
   Bitmap.add_to_32_bit_bloom_filter gb a n (Some l)) h.
Proof.
  intros Hl Ha Hb Hn n.
  apply encodable_Ok in Ha as [bsa Ha]. apply encodable_Ok in Hb as [bsb Hb].
  pose proof (lookup_lt_Some _ _ _ Hl) as Hlt.
  assert (Hadd : forall g' item bs (h0 : heap) s0,
    BloomFilter.num_hashes g' = BloomFilter.num_hashes g ->
    encode_utf8 item = Ok bs -> h0 !! l = Some s0 ->
    BloomFilter.add_to_bloom_filter g' item l h0 =
    (Ok tt, <[l := leading (BloomFilter.num_hashes g) bs ∪ s0]> h0)).
  { intros g' item bs h0 s0 Hg' Hbs Hs0.
    rewrite add_to_bloom_filter_run, Hbs, Hs0, Hg'. now rewrite decide_True. }
  assert (Hswap :
    <[l := leading (BloomFilter.num_hashes g) bsb
           ∪ (leading (BloomFilter.num_hashes g) bsa ∪ s)]> h =
    <[l := leading (BloomFilter.num_hashes g) bsa
           ∪ (leading (BloomFilter.num_hashes g) bsb ∪ s)]> h).
  { f_equal. set_solver. }
  assert (Hseq : forall g' x bx y by_,
    BloomFilter.num_hashes g' = BloomFilter.num_hashes g ->
    encode_utf8 x = Ok bx -> encode_utf8 y = Ok by_ ->
    (BloomFilter.add_to_bloom_filter g' x l ;;;
     BloomFilter.add_to_bloom_filter g' y l) h =
    (Ok tt, <[l := leading (BloomFilter.num_hashes g) by_
                   ∪ (leading (BloomFilter.num_hashes g) bx ∪ s)]> h)).
  { intros g' x bx y by_ Hg' Hx Hy. unfold bind.
    rewrite (Hadd g' x bx h s Hg' Hx Hl).
    rewrite (Hadd g' y by_ _ _ Hg' Hy (list_lookup_insert_eq _ _ _ Hlt)).
    now rewrite list_insert_insert_eq. }
  assert (Hseq32 : forall x bx y by_,
    encode_utf8 x = Ok bx -> encode_utf8 y = Ok by_ ->
    (Bitmap.add_to_32_bit_bloom_filter gb x n (Some l) ;;;
     Bitmap.add_to_32_bit_bloom_filter gb y n (Some l)) h =
    (Ok set_class, <[l := leading (BloomFilter.num_hashes g) by_
                          ∪ (leading (BloomFilter.num_hashes g) bx ∪ s)]> h)).
  { intros x bx y by_ Hx Hy. unfold bind.
    rewrite add_to_32_bit_bloom_filter_run. unfold bind, ret, n.
    cbn [from_option id].
    rewrite (Hadd {| BloomFilter.num_hashes := BloomFilter.num_hashes g |}
               x bx h s eq_refl Hx Hl).
    rewrite add_to_32_bit_bloom_filter_run. unfold bind, ret.
    cbn [from_option id].
    rewrite (Hadd {| BloomFilter.num_hashes := BloomFilter.num_hashes g |}
               y by_ _ _ eq_refl Hy (list_lookup_insert_eq _ _ _ Hlt)).
    now rewrite list_insert_insert_eq. }
  rewrite (Hseq g a bsa b bsb eq_refl Ha Hb), (Hseq g b bsb a bsa eq_refl Hb Ha).
  rewrite (Hseq32 a bsa b bsb Ha Hb), (Hseq32 b bsb a bsa Hb Ha).
  rewrite Hswap. repeat split.
Qed.

Lemma insert_commutes_witness :
  let g := {| BloomFilter.num_hashes := 4 |} in
  (BloomFilter.add_to_bloom_filter g (lit "A") 0%nat ;;;
   BloomFilter.add_to_bloom_filter g (lit "B") 0%nat) [∅] =
  (BloomFilter.add_to_bloom_filter g (lit "B") 0%nat ;;;
   BloomFilter.add_to_bloom_filter g (lit "A") 0%nat) [∅].
Proof.
  apply (insert_commutes {| Bitmap.default_bloom := 0 |}
           {| BloomFilter.num_hashes := 4 |}
           (lit "A") (lit "B") 0%nat [∅] ∅).
  - reflexivity.
  - reflexivity.
  - reflexivity.
  - simpl. lia.
Defined.

(** ** More about membership *)

Lemma item_in_bloom_true_inv g item bloom (h : heap) b :
  h !! bloom = Some b ->
  fst (BloomFilter.item_in_bloom g item bloom h) = Ok true ->
  insertable (BloomFilter.num_hashes g) [item] /\
  contribution (BloomFilter.num_hashes g) item ⊆ b.
Proof.
  intros Hb Htrue.
  assert (Hins : insertable (BloomFilter.num_hashes g) [item]).
  { unfold BloomFilter.item_in_bloom, bind in Htrue.
    destruct (BloomFilter.create_bloom_filter g [item] h) as [[l|e] h1] eqn:Hrun.
    - eapply create_bloom_filter_inv, Hrun.
    - discriminate. }
  split; [exact Hins|].
  rewrite (item_in_bloom_run g item bloom h b Hb Hins) in Htrue.
  simpl in Htrue. injection Htrue as Htrue. now apply bool_decide_eq_true in Htrue.
Qed.

(** X6.  A bigger list gives a bigger filter, and answers only move from
    [False] to [True]: when every entry of [es1] is also in [es2], the filter
    built from [es1] is a subset of the one built from [es2], and every item
    found in the first is found in the second. *)
Theorem more_entries_more_members g (es1 es2 : list str) (h h1 h2 : heap) l1 l2 :
  es1 ⊆ es2 ->
  BloomFilter.create_bloom_filter g es1 h = (Ok l1, h1) ->
  BloomFilter.create_bloom_filter g es2 h1 = (Ok l2, h2) ->
  exists s1 s2,
    h2 !! l1 = Some s1 /\ h2 !! l2 = Some s2 /\ s1 ⊆ s2 /\
    forall item,
      fst (BloomFilter.item_in_bloom g item l1 h2) = Ok true ->
      fst (BloomFilter.item_in_bloom g item l2 h2) = Ok true.
Proof.
  intros Hsub Hb1 Hb2.
  pose proof (create_bloom_filter_inv _ _ _ _ _ Hb1) as Hins1.
  pose proof (create_bloom_filter_inv _ _ _ _ _ Hb2) as Hins2.
  rewrite create_bloom_filter_ok in Hb1 by exact Hins1. injection Hb1 as <- <-.
  rewrite create_bloom_filter_ok in Hb2 by exact Hins2. injection Hb2 as <- <-.
  set (n := BloomFilter.num_hashes g).
  set (s1 := ⋃ (contribution n <$> es1)). set (s2 := ⋃ (contribution n <$> es2)).
  assert (H1 : ((h ++ [s1]) ++ [s2]) !! length h = Some s1).
  { rewrite lookup_app_l by (rewrite length_app; simpl; lia).
    apply list_lookup_middle. reflexivity. }
  assert (H2 : ((h ++ [s1]) ++ [s2]) !! length (h ++ [s1]) = Some s2)
    by (apply list_lookup_middle; reflexivity).
  assert (Hs : s1 ⊆ s2).
  { intros x Hx. apply elem_of_union_list in Hx as (X & HX & Hx).
    apply list_elem_of_fmap in HX as (item & -> & Hitem).
    apply elem_of_union_list. exists (contribution n item). split; [|exact Hx].
    apply list_elem_of_fmap. exists item. split; [reflexivity | now apply Hsub]. }
  exists s1, s2. repeat split; try assumption.
  intros item Htrue.
  destruct (item_in_bloom_true_inv g item _ _ s1 H1 Htrue) as [Hins Hc].
  rewrite (item_in_bloom_run g item _ _ s2 H2 Hins). simpl. f_equal.
  apply bool_decide_eq_true. fold n. set_solver.
Qed.

Lemma more_entries_more_members_witness :
  let g := BloomFilter.module_init in
  let s1 := ⋃ (contribution 10 <$> [lit "Oats"]) in
  let s2 := ⋃ (contribution 10 <$> grains) in
  exists t1 t2,
    [s1; s2] !! 0%nat = Some t1 /\ [s1; s2] !! 1%nat = Some t2 /\ t1 ⊆ t2 /\
    forall item,
      fst (BloomFilter.item_in_bloom g item 0%nat [s1; s2]) = Ok true ->
      fst (BloomFilter.item_in_bloom g item 1%nat [s1; s2]) = Ok true.
Proof.
  apply (more_entries_more_members BloomFilter.module_init
           [lit "Oats"] grains [] [⋃ (contribution 10 <$> [lit "Oats"])]).
  - intros x Hx. apply list_elem_of_singleton in Hx as ->. left.
  - vm_compute. reflexivity.
  - vm_compute. reflexivity.
Defined.

Lemma leading_range n bs b : b ∈ leading n bs -> 0 <= b <= 255.
Proof.
  unfold leading. rewrite elem_of_list_to_set. intros Hb.
  apply list_elem_of_lookup in Hb as [i Hi].
  apply lookup_take_Some in Hi as [Hi _].
  assert (Hb : b ∈ SHA256.digest bs) by (apply list_elem_of_lookup; eauto).
  pose proof (digest_range bs) as Hr. rewrite Forall_forall in Hr.
  apply Hr in Hb. lia.
Qed.

Lemma contribution_range n item b : b ∈ contribution n item -> 0 <= b <= 255.
Proof.
  unfold contribution. destruct (encode_utf8 item) as [bs|e].
  - apply leading_range.
  - intros Hb. now apply not_elem_of_empty in Hb.
Qed.

Definition bytes_only (s : gset Z) : Prop := forall b, b ∈ s -> 0 <= b <= 255.

(** X7.  Insertion keeps a filter a set of bytes: an insertion into a set
    whose elements are all in [0,255] leaves such a set, whether the call
    returns or raises. *)
Theorem insert_keeps_bytes gb g item n bloom l (h : heap) s :
  h !! l = Some s ->
  bytes_only s ->
  default (Bitmap.default_bloom gb) bloom = l ->
  (exists s', snd (BloomFilter.add_to_bloom_filter g item l h) !! l = Some s' /\
              bytes_only s') /\
  (exists s', snd (Bitmap.add_to_32_bit_bloom_filter gb item n bloom h) !! l =
                Some s' /\
              bytes_only s').
Proof.
  intros Hl Hs Hbloom.
  assert (Hadd : forall g',
     exists s', snd (BloomFilter.add_to_bloom_filter g' item l h) !! l = Some s' /\
                bytes_only s').
  { intros g'. rewrite add_to_bloom_filter_run, Hl.
    pose proof (lookup_lt_Some _ _ _ Hl) as Hlt.
    destruct (encode_utf8 item) as [bs|e]; [|now exists s].
    destruct (decide (BloomFilter.num_hashes g' <= 32)); simpl;
      (eexists; split; [now apply list_lookup_insert_eq|]);
      intros b [Hb|Hb]%elem_of_union; eauto using leading_range. }
  split; [apply Hadd|].
  rewrite add_to_32_bit_bloom_filter_run, Hbloom. unfold bind, ret.
  destruct (Hadd {| BloomFilter.num_hashes := default Bitmap.default_num_hashes n |})
    as (s' & Hs' & Hb).
  exists s'. split; [|exact Hb].
  destruct (BloomFilter.add_to_bloom_filter _ item _ h) as [[[]|e] h1]; exact Hs'.
Qed.

Lemma insert_keeps_bytes_witness :
  exists s',
    snd (BloomFilter.add_to_bloom_filter BloomFilter.module_init (lit "Oats")
           0%nat [{[0; 255]}]) !! 0%nat = Some s' /\
    bytes_only s'.
Proof.
  destruct (insert_keeps_bytes {| Bitmap.default_bloom := 0 |}
              BloomFilter.module_init (lit "Oats") None None 0%nat
              [{[0; 255]}] {[0; 255]}) as [Hgrow _].
  - reflexivity.
  - intros b Hb. apply elem_of_union in Hb as [Hb|Hb];
      apply elem_of_singleton in Hb; lia.
  - reflexivity.
  - exact Hgrow.
Defined.

(** X8.  A built filter is a set of bytes: every element of a filter that
    [create_bloom_filter] returns is in [0,255], so every element has a cell
    on the 16x16 grid. *)
Theorem built_filter_holds_bytes gb g (entries : list str) (h h1 : heap) l :
  BloomFilter.create_bloom_filter g entries h = (Ok l, h1) ->
  exists s,
    h1 !! l = Some s /\ bytes_only s /\
    Bitmap.create_bloom_filter gb entries (Some (BloomFilter.num_hashes g)) h =
      (Ok l, h1).
Proof.
  intros Hrun.
  assert (Hsame : Bitmap.create_bloom_filter gb entries
            (Some (BloomFilter.num_hashes g)) h = (Ok l, h1)).
  { rewrite create_bloom_filter_same. cbn [from_option id]. now destruct g. }
  pose proof (create_bloom_filter_inv _ _ _ _ _ Hrun) as Hins.
  rewrite create_bloom_filter_ok in Hrun by exact Hins. injection Hrun as <- <-.
  eexists. split; [apply list_lookup_middle; reflexivity|]. split; [|exact Hsame].
  intros b (X & HX & Hb)%elem_of_union_list.
  apply list_elem_of_fmap in HX as (it & -> & _).
  eapply contribution_range, Hb.
Qed.

Lemma built_filter_holds_bytes_witness :
  exists s, [⋃ (contribution 10 <$> grains)] !! 0%nat = Some s /\ bytes_only s.
Proof.
  destruct (built_filter_holds_bytes {| Bitmap.default_bloom := 0 |}
              BloomFilter.module_init grains []
              [⋃ (contribution 10 <$> grains)] 0%nat)
    as (s & Hs & Hbytes & _).
  - vm_compute. reflexivity.
  - exists s. split; [exact Hs | exact Hbytes].
Defined.

Lemma leading_mono m n bs : m <= n -> leading m bs ⊆ leading n bs.
Proof.
  intros Hmn b. unfold leading. rewrite !elem_of_list_to_set.
  intros Hb. apply list_elem_of_lookup in Hb as [i Hi].
  apply lookup_take_Some in Hi as [Hi Hlt].
  apply list_elem_of_lookup. exists i. apply lookup_take_Some. split; [exact Hi | lia].
Qed.

(** X9.  In [Bitmap.py] the query carries its own [num_hashes].  A query
    with fewer hashes than the filter was built with still finds every entry:
    for [m <= n], after building with [n], [item_in_bloom] with [m] answers
    [True] for every item of the list. *)
Theorem fewer_hashes_still_members gb (entries : list str) item n m (h h1 : heap) l :
  Bitmap.create_bloom_filter gb entries (Some n) h = (Ok l, h1) ->
  item ∈ entries ->
  m <= n ->
  exists h2, Bitmap.item_in_bloom gb item l m h1 = (Ok true, h2).
Proof.
  intros Hbuild Hin Hmn. rewrite create_bloom_filter_same in Hbuild.
  cbn [from_option id] in Hbuild.
  pose proof (create_bloom_filter_inv _ _ _ _ _ Hbuild) as Hins.
  rewrite create_bloom_filter_ok in Hbuild by exact Hins.
  injection Hbuild as <- <-. cbn [BloomFilter.num_hashes] in *.
  destruct Hins as [Henc Hn].
  destruct Hn as [->|Hn]; [now apply not_elem_of_nil in Hin|].
  assert (Hitem : encodable item) by (rewrite Forall_forall in Henc; now apply Henc).
  eexists. rewrite item_in_bloom_same.
  rewrite (item_in_bloom_run {| BloomFilter.num_hashes := m |} item (length h) _
             (⋃ (contribution n <$> entries)));
    [|apply list_lookup_middle; reflexivity
     |split; [now repeat constructor | right; simpl; lia]].
  cbn [BloomFilter.num_hashes]. rewrite bool_decide_eq_true_2; [reflexivity|].
  transitivity (contribution n item); [|now apply contribution_subseteq].
  unfold contribution. destruct (encode_utf8 item); [now apply leading_mono | reflexivity].
Qed.

Lemma fewer_hashes_still_members_witness :
  exists h2,
    Bitmap.item_in_bloom {| Bitmap.default_bloom := 0 |} (lit "Peas") 1%nat 3
      [∅; ⋃ (contribution 10 <$> grains)] = (Ok true, h2).
Proof.
  apply (fewer_hashes_still_members {| Bitmap.default_bloom := 0 |}
           grains (lit "Peas") 10 3 [∅]).
  - vm_compute. reflexivity.
  - right. left.
  - lia.
Defined.

Lemma leading_nonempty n bs : 1 <= n -> leading n bs <> ∅.
Proof.
  intros Hn Hempty. unfold leading in Hempty.
  pose proof (digest_length bs) as Hlen.
  destruct (SHA256.digest bs) as [|b d]; [discriminate|].
  destruct (Z.to_nat n) as [|k] eqn:Hk; [lia|].
  simpl in Hempty. set_solver.
Qed.

(** X10.  Nothing is found in an empty filter: with [num_hashes] in [1,32],
    [item_in_bloom] on an empty set answers [False] for every item that has a
    UTF-8 encoding. *)
Theorem empty_filter_has_no_member gb g item bloom n (h : heap) :
  h !! bloom = Some ∅ ->
  encodable item ->
  1 <= n <= 32 ->
  BloomFilter.num_hashes g = n ->
  fst (BloomFilter.item_in_bloom g item bloom h) = Ok false /\
  fst (Bitmap.item_in_bloom gb item bloom n h) = Ok false.
Proof.
  intros Hb Henc Hn Hg.
  assert (Hfalse : forall g', BloomFilter.num_hashes g' = n ->
    fst (BloomFilter.item_in_bloom g' item bloom h) = Ok false).
  { intros g' Hg'.
    rewrite (item_in_bloom_run g' item bloom h ∅ Hb)
      by (split; [now repeat constructor | right; lia]).
    simpl. f_equal. apply bool_decide_eq_false. rewrite Hg'.
    unfold contribution. apply encodable_Ok in Henc as [bs ->].
    intros Hsub. apply (leading_nonempty n bs); [lia|]. set_solver. }
  split; [now apply Hfalse|]. rewrite item_in_bloom_same. now apply Hfalse.
Qed.

Lemma empty_filter_has_no_member_witness :
  fst (BloomFilter.item_in_bloom BloomFilter.module_init (lit "Oats") 0%nat [∅]) =
    Ok false /\
  fst (Bitmap.item_in_bloom {| Bitmap.default_bloom := 0 |} (lit "Oats") 0%nat 10 [∅]) =
    Ok false.
Proof.
  apply (empty_filter_has_no_member {| Bitmap.default_bloom := 0 |}
           BloomFilter.module_init (lit "Oats") 0%nat 10 [∅]).
  - reflexivity.
  - reflexivity.
  - lia.
  - reflexivity.
Defined.

(** X11.  With [num_hashes] of zero or less the test accepts everything:
    [item_in_bloom] answers [True] for every item that has a UTF-8 encoding,
    on every filter set, whatever it holds. *)
Theorem no_hashes_everything_member gb g item bloom n (h : heap) b :
  h !! bloom = Some b ->
  encodable item ->
  n <= 0 ->
  BloomFilter.num_hashes g = n ->
  fst (BloomFilter.item_in_bloom g item bloom h) = Ok true /\
  fst (Bitmap.item_in_bloom gb item bloom n h) = Ok true.
Proof.
  intros Hb Henc Hn Hg.
  assert (Htrue : forall g', BloomFilter.num_hashes g' = n ->
    fst (BloomFilter.item_in_bloom g' item bloom h) = Ok true).
  { intros g' Hg'.
    rewrite (item_in_bloom_run g' item bloom h b Hb)
      by (split; [now repeat constructor | right; lia]).
    simpl. f_equal. apply bool_decide_eq_true. rewrite Hg'.
    unfold contribution. apply encodable_Ok in Henc as [bs ->].
    unfold leading. rewrite Z2Nat.nonpos by exact Hn. set_solver. }
  split; [now apply Htrue|]. rewrite item_in_bloom_same. now apply Htrue.
Qed.

Lemma no_hashes_everything_member_witness :
  fst (BloomFilter.item_in_bloom {| BloomFilter.num_hashes := 0 |}
         (lit "Zucchini") 0%nat [∅]) = Ok true.
Proof.
  apply (no_hashes_everything_member {| Bitmap.default_bloom := 0 |}
           {| BloomFilter.num_hashes := 0 |} (lit "Zucchini") 0%nat 0 [∅] ∅).
  - reflexivity.
  - reflexivity.
  - lia.
  - reflexivity.
Defined.

(** ** The item names read from the text box *)

(** ['\n'.join(lines)] *)
Fixpoint join (sep : Z) (lines : list str) : str :=
  match lines with
  | [] => []
  | [line] => line
  | line :: rest => line ++ sep :: join sep rest
  end.

(** No newline inside, no white space at either end. *)
Definition trimmed (item : str) : Prop :=
  (newline ∉ item) /\
  (forall c, head item = Some c -> isspace c = false) /\
  (forall c, last item = Some c -> isspace c = false).

Lemma split_cons_inv sep (s : str) : exists piece pieces, split sep s = piece :: pieces.
Proof.
  induction s as [|c s (piece & pieces & IH)]; simpl; [eauto|].
  destruct (c =? sep); [eauto|]. rewrite IH. eauto.
Qed.

Lemma split_length sep (s : str) :
  length (split sep s) = S (length (filter (fun c => c = sep) s)).
Proof.
  induction s as [|c s IH]; [reflexivity|]. simpl.
  destruct (Z.eqb_spec c sep) as [Heq|Hne].
  - rewrite filter_cons_True by exact Heq. simpl. now rewrite IH.
  - rewrite filter_cons_False by exact Hne.
    destruct (split_cons_inv sep s) as (piece & pieces & Hs).
    rewrite Hs in *. exact IH.
Qed.

Lemma split_pieces sep (s : str) :
  Forall (fun piece : str => (sep ∉ piece) /\ piece ⊆ s) (split sep s).
Proof.
  induction s as [|c s IH]; simpl.
  - constructor; [|constructor]. split; [apply not_elem_of_nil | done].
  - assert (Hweak : Forall (fun piece : str => (sep ∉ piece) /\ piece ⊆ c :: s)
                      (split sep s)).
    { eapply Forall_impl; [exact IH|]. intros p [Hp Hsub]. split; [exact Hp|].
      intros x Hx. right. now apply Hsub. }
    destruct (Z.eqb_spec c sep) as [Heq|Hne].
    + constructor; [|exact Hweak]. split; [apply not_elem_of_nil|].
      intros x Hx. now apply not_elem_of_nil in Hx.
    + destruct (split sep s) as [|piece pieces].
      * constructor; [|constructor]. split.
        -- intros Hin. apply list_elem_of_singleton in Hin. congruence.
        -- intros x Hx. apply list_elem_of_singleton in Hx as ->. left.
      * apply Forall_cons in Hweak as [[Hp Hsub] Hrest].
        constructor; [|exact Hrest]. split.
        -- intros Hin. apply elem_of_cons in Hin as [Heq|Hin]; [congruence | tauto].
        -- intros x Hx. apply elem_of_cons in Hx as [->|Hx]; [left | now apply Hsub].
Qed.

Lemma split_join sep (lines : list str) :
  lines <> [] -> Forall (fun line : str => sep ∉ line) lines ->
  split sep (join sep lines) = lines.
Proof.
  intros Hne Hlines. induction Hlines as [|line rest Hline Hrest IH]; [done|].
  clear Hne. destruct rest as [|line' rest].
  - simpl. clear IH Hrest. induction line as [|c line IHl]; [reflexivity|].
    simpl. destruct (Z.eqb_spec c sep) as [->|_]; [exfalso; apply Hline; left|].
    rewrite IHl; [reflexivity|]. intros Hin. apply Hline. now right.
  - specialize (IH ltac:(discriminate)).
    change (join sep (line :: line' :: rest))
      with (line ++ sep :: join sep (line' :: rest)).
    generalize dependent (join sep (line' :: rest)). intros J IH.
    induction line as [|c line IHl].
    + simpl. rewrite Z.eqb_refl. now rewrite IH.
    + simpl. destruct (Z.eqb_spec c sep) as [->|_]; [exfalso; apply Hline; left|].
      rewrite IHl; [reflexivity|]. intros Hin. apply Hline. now right.
Qed.

Lemma lstrip_head (s : str) c : head (lstrip s) = Some c -> isspace c = false.
Proof.
  induction s as [|c' s IH]; simpl; [discriminate|].
  destruct (isspace c') eqn:Hc'; [exact IH|].
  simpl. now intros [= <-].
Qed.

Lemma lstrip_suffix (s : str) : exists spaces,
  s = spaces ++ lstrip s /\ Forall (fun c => isspace c = true) spaces.
Proof.
  induction s as [|c s (spaces & Hs & Hsp)]; simpl.
  - exists []. split; [reflexivity | constructor].
  - destruct (isspace c) eqn:Hc.
    + exists (c :: spaces). split; [simpl; now f_equal | now constructor].
    + exists []. split; [reflexivity | constructor].
Qed.

Lemma lstrip_id (s : str) :
  (forall c, head s = Some c -> isspace c = false) -> lstrip s = s.
Proof.
  destruct s as [|c s]; [reflexivity|]. simpl. intros Hc.
  now rewrite (Hc c eq_refl).
Qed.

Lemma lstrip_blank (s : str) :
  Forall (fun c => isspace c = true) s -> lstrip s = [].
Proof. induction 1 as [|c s Hc _ IH]; simpl; [reflexivity | now rewrite Hc]. Qed.

Lemma rstrip_last (s : str) c : last (rstrip s) = Some c -> isspace c = false.
Proof. unfold rstrip. rewrite last_reverse. apply lstrip_head. Qed.

Lemma rstrip_prefix (s : str) : exists spaces,
  s = rstrip s ++ spaces /\ Forall (fun c => isspace c = true) spaces.
Proof.
  destruct (lstrip_suffix (reverse s)) as (spaces & Hs & Hsp).
  exists (reverse spaces). split.
  - unfold rstrip. rewrite <- reverse_app, <- Hs. now rewrite reverse_involutive.
  - now apply Forall_reverse.
Qed.

Lemma rstrip_id (s : str) :
  (forall c, last s = Some c -> isspace c = false) -> rstrip s = s.
Proof.
  intros Hlast. unfold rstrip. rewrite lstrip_id.
  - apply reverse_involutive.
  - intros c. rewrite head_reverse. apply Hlast.
Qed.

Lemma strip_trimmed_ends (s : str) :
  (forall c, head (strip s) = Some c -> isspace c = false) /\
  (forall c, last (strip s) = Some c -> isspace c = false) /\
  strip s ⊆ s.
Proof.
  unfold strip.
  destruct (rstrip_prefix (lstrip s)) as (sp2 & H2 & _).
  destruct (lstrip_suffix s) as (sp1 & H1 & _).
  split; [|split].
  - intros c Hc. apply (lstrip_head s). rewrite H2, head_app, Hc. reflexivity.
  - apply rstrip_last.
  - intros x Hx. rewrite H1, H2. set_solver.
Qed.

Lemma strip_id (s : str) : trimmed s -> strip s = s.
Proof.
  intros (_ & Hhead & Hlast). unfold strip.
  rewrite lstrip_id by exact Hhead. now apply rstrip_id.
Qed.

Lemma strip_blank (s : str) :
  Forall (fun c => isspace c = true) s -> strip s = [].
Proof. intros Hs. unfold strip. now rewrite lstrip_blank. Qed.

Lemma notify_items_length (text : str) :
  length (BloomFilter.notify_items text) =
    S (length (filter (fun c => c = newline) text)).
Proof.
  unfold BloomFilter.notify_items. now rewrite length_map, split_length.
Qed.

(** X12.  What [notify] inserts.  The text box yields one item per line,
    one more than it has newlines and so never none; no item contains a
    newline or starts or ends with white space. *)
Theorem notify_items_shape (text : str) :
  (length (Bitmap.notify_items text) =
     S (length (filter (fun c => c = newline) text)) /\
   Forall trimmed (Bitmap.notify_items text)) /\
  BloomFilter.notify_items text = Bitmap.notify_items text.
Proof.
  split; [|reflexivity]. unfold Bitmap.notify_items. split.
  - now rewrite length_map, split_length.
  - apply Forall_map. eapply Forall_impl; [apply split_pieces|].
    intros piece [Hnl _]. simpl.
    destruct (strip_trimmed_ends piece) as (Hh & Hl & Hsub).
    split; [|split; assumption].
    intros Hin. apply Hnl. now apply Hsub.
Qed.

(** X13.  Names typed one per line come out as typed: for a list of names,
    not empty, none of which contains a newline or starts or ends with white
    space, reading the text that joins them with newlines gives the list
    back. *)
Theorem notify_items_of_lines (lines : list str) :
  lines <> [] ->
  Forall trimmed lines ->
  Bitmap.notify_items (join newline lines) = lines /\
  BloomFilter.notify_items (join newline lines) = lines.
Proof.
  intros Hne Hlines.
  assert (Hread : Bitmap.notify_items (join newline lines) = lines).
  { unfold Bitmap.notify_items. rewrite split_join; [|exact Hne|].
    - induction Hlines as [|line rest Hline _ IH]; [reflexivity|].
      simpl. rewrite strip_id by exact Hline. f_equal.
      destruct rest; [reflexivity|]. apply IH. discriminate.
    - eapply Forall_impl; [exact Hlines|]. now intros line [Hnl _]. }
  split; exact Hread.
Qed.

Lemma notify_items_of_lines_witness :
  Bitmap.notify_items (join newline grains) = grains /\
  BloomFilter.notify_items (join newline grains) = grains.
Proof.
  apply (notify_items_of_lines grains).
  - discriminate.
  - repeat constructor; try (intros c [= <-]; reflexivity);
      intros Hin; repeat (apply elem_of_cons in Hin as [Heq|Hin];
                            [discriminate Heq|]);
      now apply not_elem_of_nil in Hin.
Defined.

(** X14.  An empty text box still fills a filter.  For a text of white space
    only (the empty text included) every item is the empty string, and with
    [num_hashes] at most 32 the filter built from them holds exactly the
    leading bytes of the digest of the empty message: at least one element
    as soon as [num_hashes] is 1 or more. *)
Theorem blank_text_filter gb g (text : str) (h : heap) :
  Forall (fun c => isspace c = true) text ->
  BloomFilter.num_hashes g <= 32 ->
  let n := BloomFilter.num_hashes g in
  Forall (fun item => item = []) (BloomFilter.notify_items text) /\
  BloomFilter.create_bloom_filter g (BloomFilter.notify_items text) h =
    (Ok (length h), h ++ [leading n []]) /\
  Bitmap.create_bloom_filter gb (Bitmap.notify_items text) (Some n) h =
    (Ok (length h), h ++ [leading n []]) /\
  (1 <= n -> leading n [] <> ∅).
Proof.
  intros Hblank Hn n.
  assert (Hitems : Forall (fun item => item = []) (BloomFilter.notify_items text)).
  { unfold BloomFilter.notify_items. apply Forall_map.
    eapply Forall_impl; [apply (split_pieces newline text)|].
    intros piece [_ Hsub]. simpl. apply strip_blank.
    rewrite Forall_forall in *. intros c Hc. apply Hblank. now apply Hsub. }
  assert (Hbuild : BloomFilter.create_bloom_filter g (BloomFilter.notify_items text) h =
    (Ok (length h), h ++ [leading n []])).
  { rewrite create_bloom_filter_ok.
    - do 3 f_equal.
      assert (Hne : BloomFilter.notify_items text <> []).
      { intros Hnil. pose proof (f_equal length Hnil) as Hlen.
        rewrite notify_items_length in Hlen. discriminate Hlen. }
      induction Hitems as [|item items -> _ IH]; [done|].
      rewrite fmap_cons, union_list_cons.
      change (contribution (BloomFilter.num_hashes g) []) with (leading n []).
      destruct items as [|item' items]; [simpl; set_solver|].
      rewrite IH by discriminate. set_solver.
    - split; [|now right].
      eapply Forall_impl; [exact Hitems|]. now intros item ->. }
  split; [exact Hitems|]. split; [exact Hbuild|]. split.
  - rewrite create_bloom_filter_same. cbn [from_option id].
    replace {| BloomFilter.num_hashes := n |} with g by (subst n; now destruct g).
    exact Hbuild.
  - apply leading_nonempty.
Qed.

Lemma blank_text_filter_witness :
  BloomFilter.create_bloom_filter BloomFilter.module_init
    (BloomFilter.notify_items []) [] =
  (Ok 0%nat, [list_to_set [227; 176; 196; 66; 152; 252; 28; 20; 154; 251]]).
Proof.
  destruct (blank_text_filter {| Bitmap.default_bloom := 0 |}
              BloomFilter.module_init [] [])
    as (_ & Hbuild & _).
  - constructor.
  - simpl. lia.
  - rewrite Hbuild. vm_compute. reflexivity.
Defined.

(** ** The pixels of a card *)

(** The bytes of [0,255] that are in a set, in increasing order. *)
Definition lit_bytes (s : gset Z) : list Z :=
  filter (fun b => b ∈ s) (seqZ 0 256).

(** The call that the pixel loop makes for the cell of a byte. *)
Definition pixel {E} (rect : Z -> Z -> E) (b : Z) : E :=
  let '(x, y) := Bitmap.coordinates_from_byte b in rect x y.

Lemma byte_of_coordinates b :
  0 <= b <= 255 ->
  Bitmap.byte_for_coordinate (fst (Bitmap.coordinates_from_byte b))
    (snd (Bitmap.coordinates_from_byte b)) = b.
Proof.
  intros Hb. rewrite coordinates_from_byte_arith, byte_for_coordinate_arith.
  simpl. Z.div_mod_to_equations. lia.
Qed.

Lemma for_calls_pure {A E} (xs : list A) (body : A -> py (list E))
    (f : A -> list E) (h : heap) :
  (forall x, body x h = (Ok (f x), h)) ->
  for_calls xs body h = (Ok (flat_map f xs), h).
Proof.
  intros Hbody. induction xs as [|x xs IH]; simpl; [reflexivity|].
  unfold bind. rewrite Hbody, IH. reflexivity.
Qed.

Lemma flat_map_prod {A B C} (f : A -> B -> list C) (xs : list A) (ys : list B) :
  flat_map (fun x => flat_map (f x) ys) xs =
  flat_map (fun p => f (fst p) (snd p)) (list_prod xs ys).
Proof.
  induction xs as [|x xs IH]; simpl; [reflexivity|].
  rewrite flat_map_app, <- IH. f_equal. clear IH.
  induction ys as [|y ys IHy]; simpl; [reflexivity | now f_equal].
Qed.

Lemma grid_cells :
  list_prod (range 16) (range 16) = map Bitmap.coordinates_from_byte (seqZ 0 256).
Proof. vm_compute. reflexivity. Qed.

Lemma pixels_of_bytes {E} (rect : Z -> Z -> E) (s : gset Z) (bs : list Z) :
  Forall (fun b => 0 <= b <= 255) bs ->
  flat_map (fun p => if bool_decide (Bitmap.byte_for_coordinate (fst p) (snd p) ∈ s)
                     then [rect (fst p) (snd p)] else [])
           (map Bitmap.coordinates_from_byte bs) =
  map (pixel rect) (filter (fun b => b ∈ s) bs).
Proof.
  induction 1 as [|b bs Hb _ IH]; [reflexivity|].
  cbn [map flat_map]. rewrite IH, (byte_of_coordinates b Hb).
  destruct (decide (b ∈ s)) as [Hin|Hout].
  - rewrite bool_decide_eq_true_2, filter_cons_True by exact Hin.
    cbn [map app]. reflexivity.
  - now rewrite bool_decide_eq_false_2, filter_cons_False by exact Hout.
Qed.

Lemma bytes_0_255 : Forall (fun b => 0 <= b <= 255) (seqZ 0 256).
Proof. apply Forall_forall. intros b Hb. apply elem_of_seqZ in Hb. lia. Qed.

Lemma pixel_loop_run {E} (rect : Z -> Z -> E) l (h : heap) s :
  h !! l = Some s ->
  for_calls (range 16) (fun grid_x =>
    for_calls (range 16) (fun grid_y =>
      let byte := Bitmap.byte_for_coordinate grid_x grid_y in
      lit <- set_contains byte l ;;
      if lit then ret [rect grid_x grid_y] else ret [])) h =
  (Ok (map (pixel rect) (lit_bytes s)), h).
Proof.
  intros Hl.
  rewrite (for_calls_pure _ _ (fun x => flat_map (fun y =>
             if bool_decide (Bitmap.byte_for_coordinate x y ∈ s)
             then [rect x y] else []) (range 16))).
  - rewrite (flat_map_prod (fun x y =>
             if bool_decide (Bitmap.byte_for_coordinate x y ∈ s)
             then [rect x y] else [])).
    rewrite grid_cells, pixels_of_bytes by apply bytes_0_255. reflexivity.
  - intros x. apply for_calls_pure. intros y.
    unfold bind, set_contains. rewrite Hl.
    destruct (bool_decide _); reflexivity.
Qed.

Lemma lit_bytes_elem (s : gset Z) b : b ∈ lit_bytes s <-> b ∈ s /\ 0 <= b <= 255.
Proof.
  unfold lit_bytes. rewrite list_elem_of_filter, elem_of_seqZ. intuition lia.
Qed.

Lemma lit_bytes_NoDup (s : gset Z) : NoDup (lit_bytes s).
Proof. apply NoDup_filter, NoDup_seqZ. Qed.

Lemma lit_bytes_length (s : gset Z) :
  bytes_only s -> length (lit_bytes s) = size s.
Proof.
  intros Hs. unfold size, set_size. simpl. apply Permutation_length.
  apply NoDup_Permutation; [apply lit_bytes_NoDup | apply NoDup_elements|].
  intros b. rewrite lit_bytes_elem, elem_of_elements. split; [tauto|].
  intros Hb. split; [exact Hb | now apply Hs].
Qed.

Lemma pixel_cell_inj b1 b2 :
  0 <= b1 <= 255 -> 0 <= b2 <= 255 ->
  pixel pair b1 = pixel pair b2 -> b1 = b2.
Proof.
  intros H1 H2. unfold pixel.
  rewrite <- (byte_of_coordinates b1 H1) at 2.
  rewrite <- (byte_of_coordinates b2 H2) at 2.
  destruct (Bitmap.coordinates_from_byte b1), (Bitmap.coordinates_from_byte b2).
  now intros [= -> ->].
Qed.

(** X15.  The filter card shows the filter.  On a filter set [s] the pixel
    loop of [draw_bloom_grid] draws one rectangle for each byte of [0,255]
    that is in [s], in increasing order of the bytes, each in the cell
    [coordinates_from_byte] gives for it, and it leaves the heap as it was. *)
Theorem draw_bloom_grid_shows_filter {E} (rect : Z -> Z -> E) bloom (h : heap) s :
  h !! bloom = Some s ->
  Bitmap.draw_bloom_grid rect bloom h = (Ok (map (pixel rect) (lit_bytes s)), h) /\
  BloomFilter.draw_bloom_grid rect bloom h = (Ok (map (pixel rect) (lit_bytes s)), h) /\
  NoDup (lit_bytes s) /\
  (forall b, b ∈ lit_bytes s <-> b ∈ s /\ 0 <= b <= 255).
Proof.
  intros Hl. split; [|split; [|split]].
  - exact (pixel_loop_run rect bloom h s Hl).
  - exact (pixel_loop_run rect bloom h s Hl).
  - apply lit_bytes_NoDup.
  - apply lit_bytes_elem.
Qed.

Lemma draw_bloom_grid_shows_filter_witness :
  Bitmap.draw_bloom_grid pair 0%nat [{[0xA7; 0x03; 300]}] =
  (Ok [(0, 3); (10, 7)], [{[0xA7; 0x03; 300]}]).
Proof.
  destruct (draw_bloom_grid_shows_filter pair 0%nat
              [{[0xA7; 0x03; 300]} : gset Z] {[0xA7; 0x03; 300]} eq_refl)
    as (Hrun & _).
  rewrite Hrun. vm_compute. reflexivity.
Defined.

Lemma draw_hash_sketches_run {E} g (rect : Z -> Z -> E) item (h : heap) :
  insertable (BloomFilter.num_hashes g) [item] ->
  let c := contribution (BloomFilter.num_hashes g) item in
  BloomFilter.draw_hash_sketches g rect item h =
  (Ok (map (pixel rect) (lit_bytes c)), h ++ [c]).
Proof.
  intros Hins c. unfold BloomFilter.draw_hash_sketches, bind.
  rewrite create_bloom_filter_ok by exact Hins.
  replace (⋃ (contribution (BloomFilter.num_hashes g) <$> [item])) with c
    by (simpl; set_solver).
  apply (pixel_loop_run rect (length h) (h ++ [c]) c).
  apply list_lookup_middle. reflexivity.
Qed.

Lemma draw_hash_sketches_same {E} gb (rect : Z -> Z -> E) item n (h : heap) :
  Bitmap.draw_hash_sketches gb rect item n h =
  BloomFilter.draw_hash_sketches {| BloomFilter.num_hashes := n |} rect item h.
Proof.
  unfold Bitmap.draw_hash_sketches, BloomFilter.draw_hash_sketches, bind.
  now rewrite create_bloom_filter_same.
Qed.

(** X16.  An item card has at most [num_hashes] pixels, as the comment on
    [num_hashes] says, and at least one: for an item with a UTF-8 encoding
    and [num_hashes] in [1,32], the pixel loop of [draw_hash_sketches] draws
    as many rectangles as the item's sparse hash has elements. *)
Theorem item_card_pixel_count {E} gb g (rect : Z -> Z -> E) item n (h : heap) :
  encodable item ->
  1 <= n <= 32 ->
  BloomFilter.num_hashes g = n ->
  exists calls h1,
    BloomFilter.draw_hash_sketches g rect item h = (Ok calls, h1) /\
    Bitmap.draw_hash_sketches gb rect item n h = (Ok calls, h1) /\
    length calls = size (contribution n item) /\
    (1 <= length calls)%nat /\ Z.of_nat (length calls) <= n.
Proof.
  intros Henc Hn Hg.
  assert (Hins : forall g', BloomFilter.num_hashes g' = n ->
                 insertable (BloomFilter.num_hashes g') [item]).
  { intros g' ->. split; [now repeat constructor | right; lia]. }
  eexists _, _. rewrite draw_hash_sketches_same.
  rewrite !draw_hash_sketches_run by now apply Hins.
  rewrite Hg. cbn [BloomFilter.num_hashes].
  split; [reflexivity|]. split; [reflexivity|].
  rewrite length_map, lit_bytes_length
    by (intros b Hb; eapply contribution_range, Hb).
  split; [reflexivity|].
  pose proof (size_contribution n item) as Hmax.
  split; [|lia].
  assert (size (contribution n item) <> 0%nat); [|lia].
  intros Hzero. apply size_empty_iff in Hzero.
  unfold contribution in Hzero. apply encodable_Ok in Henc as [bs Hbs].
  rewrite Hbs in Hzero. apply (leading_nonempty n bs); [lia|].
  now apply leibniz_equiv.
Qed.

Lemma item_card_pixel_count_witness :
  exists calls h1,
    BloomFilter.draw_hash_sketches BloomFilter.module_init pair (lit "Oats") [] =
      (Ok calls, h1) /\
    length calls = 9%nat.
Proof.
  destruct (item_card_pixel_count {| Bitmap.default_bloom := 0 |}
              BloomFilter.module_init pair (lit "Oats") 10 [])
    as (calls & h1 & Hrun & _ & Hlen & _).
  - reflexivity.
  - lia.
  - reflexivity.
  - exists calls, h1. split; [exact Hrun|]. rewrite Hlen.
    vm_compute. reflexivity.
Defined.

(** X17.  The filter card has as many pixels as the filter has elements, and
    so at most [num_hashes] times the number of items, as the comment on
    [num_hashes] says: after [create_bloom_filter] with [num_hashes >= 0], the
    pixel loop of [draw_bloom_grid] on the new filter draws exactly one
    rectangle per element. *)
Theorem filter_card_pixel_count {E} g (rect : Z -> Z -> E)
    (entries : list str) (h h1 : heap) l :
  0 <= BloomFilter.num_hashes g ->
  BloomFilter.create_bloom_filter g entries h = (Ok l, h1) ->
  exists s calls,
    h1 !! l = Some s /\
    BloomFilter.draw_bloom_grid rect l h1 = (Ok calls, h1) /\
    Bitmap.draw_bloom_grid rect l h1 = (Ok calls, h1) /\
    length calls = size s /\
    Z.of_nat (length calls) <= BloomFilter.num_hashes g * Z.of_nat (length entries).
Proof.
  intros Hn Hbuild.
  pose proof (create_bloom_filter_inv _ _ _ _ _ Hbuild) as Hins.
  rewrite create_bloom_filter_ok in Hbuild by exact Hins.
  injection Hbuild as <- <-.
  set (n := BloomFilter.num_hashes g) in *.
  set (s := ⋃ (contribution n <$> entries)).
  assert (Hl : (h ++ [s]) !! length h = Some s)
    by (apply list_lookup_middle; reflexivity).
  assert (Hbytes : bytes_only s).
  { intros b (X & HX & Hb)%elem_of_union_list.
    apply list_elem_of_fmap in HX as (it & -> & _).
    eapply contribution_range, Hb. }
  exists s, (map (pixel rect) (lit_bytes s)).
  split; [exact Hl|].
  split; [exact (pixel_loop_run rect _ _ s Hl)|].
  split; [exact (pixel_loop_run rect _ _ s Hl)|].
  rewrite length_map, lit_bytes_length by exact Hbytes.
  split; [reflexivity|].
  pose proof (size_union_list_le (Z.to_nat n) (contribution n <$> entries)) as Hle.
  rewrite length_fmap in Hle.
  assert (size s <= length entries * Z.to_nat n)%nat as Hsz.
  { apply Hle, Forall_fmap, Forall_forall. intros item _.
    apply size_contribution. }
  nia.
Qed.

Lemma filter_card_pixel_count_witness :
  exists s calls,
    [⋃ (contribution 10 <$> grains)] !! 0%nat = Some s /\
    BloomFilter.draw_bloom_grid pair 0%nat [⋃ (contribution 10 <$> grains)] =
      (Ok calls, [⋃ (contribution 10 <$> grains)]) /\
    length calls = size s /\ (length calls <= 40)%nat.
Proof.
  destruct (filter_card_pixel_count
              BloomFilter.module_init pair grains []
              [⋃ (contribution 10 <$> grains)] 0%nat)
    as (s & calls & Hs & Hrun & _ & Hlen & Hmax).
  - simpl. lia.
  - vm_compute. reflexivity.
  - exists s, calls.
    split; [exact Hs|]. split; [exact Hrun|]. split; [exact Hlen|].
    change (Z.of_nat (length calls) <= 40) in Hmax. lia.
Defined.

(** ** Item cards against the filter card *)

Lemma cells_subseteq (c b : gset Z) :
  bytes_only c ->
  map (pixel pair) (lit_bytes c) ⊆ map (pixel pair) (lit_bytes b) <-> c ⊆ b.
Proof.
  intros Hc. split.
  - intros Hcells x Hx.
    assert (Hcell : pixel pair x ∈ map (pixel pair) (lit_bytes b)).
    { apply Hcells, list_elem_of_fmap. exists x. split; [reflexivity|].
      apply lit_bytes_elem. split; [exact Hx | now apply Hc]. }
    apply list_elem_of_fmap in Hcell as (y & Hxy & Hy).
    apply lit_bytes_elem in Hy as [Hy Hrange].
    now rewrite (pixel_cell_inj x y (Hc x Hx) Hrange Hxy).
  - intros Hsub cell Hcell.
    apply list_elem_of_fmap in Hcell as (x & -> & Hx).
    apply list_elem_of_fmap. exists x. split; [reflexivity|].
    apply lit_bytes_elem in Hx as [Hx Hrange]. apply lit_bytes_elem.
    split; [now apply Hsub | exact Hrange].
Qed.

Lemma contribution_bytes n item : bytes_only (contribution n item).
Proof. intros b Hb. eapply contribution_range, Hb. Qed.

(** X18.  The cards say what the test says.  For an item with a UTF-8
    encoding and [num_hashes] at most 32, every cell drawn on the item card
    by [draw_hash_sketches] is drawn on the filter card by [draw_bloom_grid]
    exactly when [item_in_bloom] answers [True]. *)
Theorem item_card_fits_iff_member gb g item bloom n (h : heap) b :
  h !! bloom = Some b ->
  encodable item ->
  n <= 32 ->
  BloomFilter.num_hashes g = n ->
  exists item_cells filter_cells h1,
    BloomFilter.draw_hash_sketches g pair item h = (Ok item_cells, h1) /\
    Bitmap.draw_hash_sketches gb pair item n h = (Ok item_cells, h1) /\
    BloomFilter.draw_bloom_grid pair bloom h = (Ok filter_cells, h) /\
    Bitmap.draw_bloom_grid pair bloom h = (Ok filter_cells, h) /\
    (item_cells ⊆ filter_cells <->
     fst (BloomFilter.item_in_bloom g item bloom h) = Ok true) /\
    (item_cells ⊆ filter_cells <->
     fst (Bitmap.item_in_bloom gb item bloom n h) = Ok true).
Proof.
  intros Hb Henc Hn Hg.
  assert (Hins : forall g', BloomFilter.num_hashes g' = n ->
                 insertable (BloomFilter.num_hashes g') [item]).
  { intros g' ->. split; [now repeat constructor | now right]. }
  assert (Htest : forall g', BloomFilter.num_hashes g' = n ->
    (map (pixel pair) (lit_bytes (contribution n item))
       ⊆ map (pixel pair) (lit_bytes b) <->
     fst (BloomFilter.item_in_bloom g' item bloom h) = Ok true)).
  { intros g' Hg'. rewrite cells_subseteq by apply contribution_bytes.
    rewrite (item_in_bloom_run g' item bloom h b Hb (Hins g' Hg')). rewrite Hg'.
    simpl. split.
    - intros Hsub. f_equal. now apply bool_decide_eq_true.
    - intros [= Htrue]. now apply bool_decide_eq_true in Htrue. }
  eexists _, _, _. rewrite draw_hash_sketches_same, item_in_bloom_same.
  rewrite !draw_hash_sketches_run by now apply Hins.
  rewrite Hg. cbn [BloomFilter.num_hashes].
  split; [reflexivity|]. split; [reflexivity|].
  split; [exact (pixel_loop_run pair bloom h b Hb)|].
  split; [exact (pixel_loop_run pair bloom h b Hb)|].
  split; now apply Htest.
Qed.

Lemma item_card_fits_iff_member_witness :
  exists item_cells filter_cells h1,
    BloomFilter.draw_hash_sketches BloomFilter.module_init pair (lit "Oats")
      [⋃ (contribution 10 <$> grains)] = (Ok item_cells, h1) /\
    BloomFilter.draw_bloom_grid pair 0%nat [⋃ (contribution 10 <$> grains)] =
      (Ok filter_cells, [⋃ (contribution 10 <$> grains)]) /\
    (item_cells ⊆ filter_cells <->
     fst (BloomFilter.item_in_bloom BloomFilter.module_init (lit "Oats") 0%nat
            [⋃ (contribution 10 <$> grains)]) = Ok true).
Proof.
  destruct (item_card_fits_iff_member {| Bitmap.default_bloom := 0 |}
              BloomFilter.module_init (lit "Oats") 0%nat 10
              [⋃ (contribution 10 <$> grains)] (⋃ (contribution 10 <$> grains)))
    as (ic & fc & h1 & H1 & _ & H2 & _ & H3 & _).
  - reflexivity.
  - reflexivity.
  - lia.
  - reflexivity.
  - exists ic, fc, h1. split; [exact H1|]. split; [exact H2 | exact H3].
Defined.

(** X19.  Every item card fits its filter card.  After a filter is built
    from a list, each cell that [draw_hash_sketches] draws for an item of the
    list is among the cells that [draw_bloom_grid] draws for the filter. *)
Theorem listed_item_card_fits gb g (entries : list str) item (h h1 : heap) l :
  BloomFilter.create_bloom_filter g entries h = (Ok l, h1) ->
  item ∈ entries ->
  exists item_cells filter_cells h2,
    BloomFilter.draw_hash_sketches g pair item h1 = (Ok item_cells, h2) /\
    Bitmap.draw_hash_sketches gb pair item (BloomFilter.num_hashes g) h1 =
      (Ok item_cells, h2) /\
    BloomFilter.draw_bloom_grid pair l h1 = (Ok filter_cells, h1) /\
    Bitmap.draw_bloom_grid pair l h1 = (Ok filter_cells, h1) /\
    item_cells ⊆ filter_cells.
Proof.
  intros Hbuild Hin.
  pose proof (create_bloom_filter_inv _ _ _ _ _ Hbuild) as Hins.
  rewrite create_bloom_filter_ok in Hbuild by exact Hins.
  injection Hbuild as <- <-.
  set (n := BloomFilter.num_hashes g) in *.
  set (s := ⋃ (contribution n <$> entries)).
  assert (Hl : (h ++ [s]) !! length h = Some s)
    by (apply list_lookup_middle; reflexivity).
  assert (Hitem : forall g', BloomFilter.num_hashes g' = n ->
                  insertable (BloomFilter.num_hashes g') [item]).
  { intros g' ->. destruct Hins as [Henc Hn]. split.
    - constructor; [|constructor]. rewrite Forall_forall in Henc. now apply Henc.
    - right. destruct Hn as [->|Hn]; [|exact Hn]. now apply not_elem_of_nil in Hin. }
  eexists _, _, _. rewrite draw_hash_sketches_same.
  rewrite !draw_hash_sketches_run by now apply Hitem.
  cbn [BloomFilter.num_hashes]. fold n.
  split; [reflexivity|]. split; [reflexivity|].
  split; [exact (pixel_loop_run pair _ _ s Hl)|].
  split; [exact (pixel_loop_run pair _ _ s Hl)|].
  apply cells_subseteq; [apply contribution_bytes|].
  now apply contribution_subseteq.
Qed.

Lemma listed_item_card_fits_witness :
  exists item_cells filter_cells h2,
    BloomFilter.draw_hash_sketches BloomFilter.module_init pair (lit "Beans")
      [⋃ (contribution 10 <$> grains)] = (Ok item_cells, h2) /\
    BloomFilter.draw_bloom_grid pair 0%nat [⋃ (contribution 10 <$> grains)] =
      (Ok filter_cells, [⋃ (contribution 10 <$> grains)]) /\
    item_cells ⊆ filter_cells.
Proof.
  destruct (listed_item_card_fits {| Bitmap.default_bloom := 0 |}
              BloomFilter.module_init grains (lit "Beans") []
              [⋃ (contribution 10 <$> grains)] 0%nat)
    as (ic & fc & h2 & H1 & _ & H2 & _ & H3).
  - vm_compute. reflexivity.
  - right. right. left.
  - exists ic, fc, h2. split; [exact H1|]. split; [exact H2 | exact H3].
Defined.

(** ** Queries write nothing, and filters compose *)

Lemma insert_last (h : heap) (s s0 : gset Z) :
  <[length h := s]> (h ++ [s0]) = h ++ [s].
Proof.
  rewrite <- (Nat.add_0_r (length h)) at 1. now rewrite insert_app_r.
Qed.

(** X20.  A query leaves every set as it was: after [item_in_bloom], whether
    it returns or raises, the heap is the heap before followed by at most two
    new sets (the item's sparse hash and its intersection with the filter). *)
Theorem item_in_bloom_frame gb g item bloom n (h : heap) :
  (exists extra, snd (BloomFilter.item_in_bloom g item bloom h) = h ++ extra /\
                 (length extra <= 2)%nat) /\
  (exists extra, snd (Bitmap.item_in_bloom gb item bloom n h) = h ++ extra /\
                 (length extra <= 2)%nat).
Proof.
  assert (Hframe : forall g',
    exists extra, snd (BloomFilter.item_in_bloom g' item bloom h) = h ++ extra /\
                  (length extra <= 2)%nat).
  { intros g'. unfold BloomFilter.item_in_bloom, bind.
    destruct (insert_all_frame g' [item] (length h) (h ++ [∅]) ∅)
      as (s & _ & Hrun); [apply list_lookup_middle; reflexivity|].
    rewrite insert_last in Hrun.
    unfold BloomFilter.create_bloom_filter, bind, new_set.
    destruct (for_each [item] _ (h ++ [∅])) as [[[]|e] h1]; simpl in Hrun;
      subst h1; simpl.
    - unfold set_and.
      destruct ((h ++ [s]) !! length h) as [sa|];
        [|exists [s]; split; [reflexivity | simpl; lia]].
      destruct ((h ++ [s]) !! bloom) as [sb|];
        [|exists [s]; split; [reflexivity | simpl; lia]].
      unfold set_eq.
      destruct (((h ++ [s]) ++ [sa ∩ sb]) !! length (h ++ [s])),
               (((h ++ [s]) ++ [sa ∩ sb]) !! length h); simpl;
        exists [s; sa ∩ sb]; (split; [now rewrite <- app_assoc | simpl; lia]).
    - exists [s]. split; [reflexivity | simpl; lia]. }
  split; [apply Hframe|]. rewrite item_in_bloom_same. apply Hframe.
Qed.

Lemma encode_code_point_ok c :
  0 <= c <= 0x10FFFF ->
  is_ok (encode_code_point c) = true <-> ~ (0xD800 <= c <= 0xDFFF).
Proof.
  intros Hc. unfold encode_code_point.
  destruct (Z.ltb_spec c 0); [lia|].
  destruct (Z.ltb_spec c 0x80); [simpl; split; [lia | reflexivity]|].
  destruct (Z.ltb_spec c 0x800); [simpl; split; [lia | reflexivity]|].
  destruct (Z.leb_spec 0xD800 c), (Z.leb_spec c 0xDFFF); simpl;
    try (split; [intros; discriminate | lia]);
    destruct (Z.ltb_spec c 0x10000); try (simpl; split; [lia | reflexivity]);
    destruct (Z.ltb_spec c 0x110000); try lia; simpl; split; (lia || reflexivity).
Qed.

Lemma encode_raise_kind (s : str) e : encode_utf8 s = Raise e -> e = UnicodeEncodeError.
Proof.
  assert (Hc : forall c e', encode_code_point c = Raise e' -> e' = UnicodeEncodeError).
  { intros c e'. unfold encode_code_point.
    repeat (destruct (_ <? _) || destruct (_ && _)); congruence. }
  induction s as [|c s IH]; simpl; [discriminate|].
  destruct (encode_code_point c) as [bs|e1] eqn:Hcp.
  - destruct (encode_utf8 s) as [bs'|e2]; [discriminate|].
    intros [= <-]. now apply IH.
  - intros [= <-]. eapply Hc, Hcp.
Qed.

Lemma encodable_cons c (s : str) :
  encodable (c :: s) <-> is_ok (encode_code_point c) = true /\ encodable s.
Proof.
  unfold encodable. simpl.
  destruct (encode_code_point c), (encode_utf8 s); simpl; intuition congruence.
Qed.

(** X21.  Which strings cannot be inserted.  A string of code points (each
    in [0, 0x10FFFF]) has a UTF-8 encoding exactly when it contains no
    surrogate (U+D800 to U+DFFF); when it has none, insertion and query raise
    [UnicodeEncodeError] before looking at [num_hashes] or at the filter, and
    insertion leaves the heap as it was. *)
Theorem surrogate_cannot_be_inserted gb g (item : str) n bloom l (h : heap) :
  Forall (fun c => 0 <= c <= 0x10FFFF) item ->
  (encodable item <-> forall c, c ∈ item -> ~ (0xD800 <= c <= 0xDFFF)) /\
  (~ encodable item ->
   BloomFilter.add_to_bloom_filter g item l h = (Raise UnicodeEncodeError, h) /\
   Bitmap.add_to_32_bit_bloom_filter gb item n bloom h =
     (Raise UnicodeEncodeError, h) /\
   fst (BloomFilter.item_in_bloom g item l h) = Raise UnicodeEncodeError /\
   fst (Bitmap.item_in_bloom gb item l (default Bitmap.default_num_hashes n) h) =
     Raise UnicodeEncodeError).
Proof.
  intros Hrange. split.
  - induction Hrange as [|c s Hc _ IH].
    + split; [intros _ c Hin; now apply not_elem_of_nil in Hin | reflexivity].
    + rewrite encodable_cons, IH, (encode_code_point_ok c Hc). split.
      * intros [Hhead Htail] c' [->|Hin]%elem_of_cons; [exact Hhead | now apply Htail].
      * intros Hall. split; [apply Hall; left | intros c' Hin; apply Hall; now right].
  - intros Hno.
    destruct (encode_utf8 item) as [bs|e] eqn:Henc.
    { exfalso. apply Hno, encodable_Ok. eauto. }
    pose proof (encode_raise_kind _ _ Henc) as ->.
    assert (Hadd : forall g' l' (h' : heap),
      BloomFilter.add_to_bloom_filter g' item l' h' = (Raise UnicodeEncodeError, h')).
    { intros g' l' h'. now rewrite add_to_bloom_filter_run, Henc. }
    assert (Htest : forall g',
      fst (BloomFilter.item_in_bloom g' item l h) = Raise UnicodeEncodeError).
    { intros g'. unfold BloomFilter.item_in_bloom, BloomFilter.create_bloom_filter,
        bind, new_set. simpl. unfold bind. now rewrite Hadd. }
    split; [apply Hadd|]. split; [|split; [apply Htest|]].
    + rewrite add_to_32_bit_bloom_filter_run. unfold bind. now rewrite Hadd.
    + rewrite item_in_bloom_same. apply Htest.
Qed.

Lemma surrogate_cannot_be_inserted_witness :
  ~ encodable [0x41; 0xD83D] /\
  BloomFilter.add_to_bloom_filter BloomFilter.module_init [0x41; 0xD83D] 0%nat
    [{[1]}] = (Raise UnicodeEncodeError, [{[1]}]).
Proof.
  destruct (surrogate_cannot_be_inserted {| Bitmap.default_bloom := 0 |}
              BloomFilter.module_init [0x41; 0xD83D] None None 0%nat [{[1]}])
    as [_ Hraise].
  - repeat constructor; lia.
  - assert (Hno : ~ encodable [0x41; 0xD83D]) by (vm_compute; discriminate).
    split; [exact Hno | apply (Hraise Hno)].
Defined.

Lemma insertable_app n (es1 es2 : list str) :
  insertable n (es1 ++ es2) <-> insertable n es1 /\ insertable n es2.
Proof.
  unfold insertable. rewrite Forall_app. split.
  - intros [[H1 H2] [Hnil|Hn]].
    + apply app_eq_nil in Hnil as [-> ->]. repeat split; auto.
    + repeat split; auto.
  - intros [[H1 [->|Hn1]] [H2 [->|Hn2]]];
      (split; [split; assumption|]); rewrite ?app_nil_r; auto.
Qed.

(** X22.  Filters compose by union.  Building from the concatenation of two
    lists succeeds exactly when building from each does, and then its filter
    is the union of the two filters. *)
Theorem create_bloom_filter_app gb g (es1 es2 : list str) (h : heap) :
  (is_ok (fst (BloomFilter.create_bloom_filter g (es1 ++ es2) h)) = true <->
   is_ok (fst (BloomFilter.create_bloom_filter g es1 h)) = true /\
   is_ok (fst (BloomFilter.create_bloom_filter g es2 h)) = true) /\
  (forall l h', BloomFilter.create_bloom_filter g (es1 ++ es2) h = (Ok l, h') ->
     exists s1 s2,
       BloomFilter.create_bloom_filter g es1 h = (Ok l, h ++ [s1]) /\
       BloomFilter.create_bloom_filter g es2 h = (Ok l, h ++ [s2]) /\
       h' = h ++ [s1 ∪ s2] /\
       Bitmap.create_bloom_filter gb (es1 ++ es2)
         (Some (BloomFilter.num_hashes g)) h = (Ok l, h ++ [s1 ∪ s2])).
Proof.
  assert (Hiff : forall es, is_ok (fst (BloomFilter.create_bloom_filter g es h)) = true <->
                 insertable (BloomFilter.num_hashes g) es).
  { intros es. split.
    - destruct (BloomFilter.create_bloom_filter g es h) as [[l|e] h1] eqn:Hrun;
        [|discriminate].
      intros _. eapply create_bloom_filter_inv, Hrun.
    - intros Hins. now rewrite create_bloom_filter_ok. }
  split; [rewrite !Hiff; apply insertable_app|].
  intros l h' Hbuild.
  pose proof (create_bloom_filter_inv _ _ _ _ _ Hbuild) as Hins.
  pose proof Hins as [Hins1 Hins2]%insertable_app.
  rewrite create_bloom_filter_same. cbn [from_option id].
  replace {| BloomFilter.num_hashes := BloomFilter.num_hashes g |} with g
    by now destruct g.
  rewrite create_bloom_filter_ok in * by assumption.
  injection Hbuild as <- <-.
  rewrite !create_bloom_filter_ok by assumption.
  eexists _, _. split; [reflexivity|]. split; [reflexivity|].
  rewrite fmap_app, union_list_app_L. split; reflexivity.
Qed.

Lemma create_bloom_filter_app_witness :
  exists s1 s2,
    BloomFilter.create_bloom_filter BloomFilter.module_init
      [lit "Oats"; lit "Peas"] [] = (Ok 0%nat, [s1]) /\
    BloomFilter.create_bloom_filter BloomFilter.module_init
      [lit "Beans"; lit "Barley"] [] = (Ok 0%nat, [s2]) /\
    [⋃ (contribution 10 <$> grains)] = [s1 ∪ s2].
Proof.
  destruct (create_bloom_filter_app {| Bitmap.default_bloom := 0 |}
              BloomFilter.module_init [lit "Oats"; lit "Peas"]
              [lit "Beans"; lit "Barley"] []) as [_ Happ].
  destruct (Happ 0%nat [⋃ (contribution 10 <$> grains)])
    as (s1 & s2 & H1 & H2 & H3 & _).
  - vm_compute. reflexivity.
  - exists s1, s2. split; [exact H1|]. split; [exact H2 | exact H3].
Defined.
